(** * A shallow embedding of [src/layers/encoder.py]: the Keras
    [TransformerEncoder] layer.

    Tensors are nested lists of exact reals: a [Vec] is one embedding
    vector, a [Mat] is one sequence of shape [(length, dim)] and a [T3] is
    a batch of shape [(batch, length, dim)].  Float rounding is idealised
    away.  The Keras sub-layers the block is built from ([Dense],
    [LayerNormalization], [MultiHeadAttention], [Sequential]) are modelled
    from their library semantics, including their lazy weight creation on
    the first call; the framework's random generator is an explicit piece
    of global state. *)

From Stdlib Require Import Reals Lra List Lia.
From stdpp Require Import base gmap strings.
Import ListNotations.
Open Scope R_scope.

(* ------------------------------------------------------------------ *)
(** ** Tensors and element-wise arithmetic *)

Abbreviation Vec := (list R).
Abbreviation Mat := (list Vec).
Abbreviation T3 := (list Mat).

Fixpoint zipWith {A B C : Type} (f : A -> B -> C) (l1 : list A) (l2 : list B)
  : list C :=
  match l1, l2 with
  | a :: t1, b :: t2 => f a b :: zipWith f t1 t2
  | _, _ => []
  end.

Fixpoint sumR (l : list R) : R :=
  match l with
  | [] => 0
  | a :: t => a + sumR t
  end.

Definition dot (u v : Vec) : R := sumR (zipWith Rmult u v).
Definition vadd (u v : Vec) : Vec := zipWith Rplus u v.
Definition vscale (a : R) (v : Vec) : Vec := map (Rmult a) v.

(** [inputs + attention_output] and [proj_input + proj_output]: tensors of
    equal shape are added element-wise. *)
Definition t3_add (x y : T3) : T3 := zipWith (zipWith vadd) x y.

(** Apply a function to every vector along the last axis. *)
Definition t3_map (f : Vec -> Vec) (x : T3) : T3 := map (map f) x.

(** [x . W] for a kernel stored column by column: [W] holds one column
    (of length [in_dim]) per output unit. *)
Definition linmap (W : list Vec) (v : Vec) : Vec := map (dot v) W.
Definition affine (W : list Vec) (b : Vec) (v : Vec) : Vec := vadd (linmap W v) b.

(* ------------------------------------------------------------------ *)
(** ** [keras.layers.Dense] *)

Inductive Activation := Linear | Relu.

Definition relu (x : R) : R := Rmax 0 x.

Definition activate (a : Activation) (x : R) : R :=
  match a with
  | Linear => x
  | Relu => relu x
  end.

Record DenseW := mkDenseW { kernel : list Vec; bias : Vec }.

Record Dense := mkDense {
  units : nat;
  activation : Activation;
  dense_weights : DenseW
}.

(** [Dense.call]: [activation(x . kernel + bias)] on the last axis. *)
Definition dense_vec (D : Dense) (v : Vec) : Vec :=
  map (activate (activation D))
      (affine (kernel (dense_weights D)) (bias (dense_weights D)) v).

(** [Sequential.call]: the layers in order (the [Input] entry only fixes
    the shape and holds no computation). *)
Definition sequential_call (layers : list Dense) (x : T3) : T3 :=
  fold_left (fun acc D => t3_map (dense_vec D) acc) layers x.

(* ------------------------------------------------------------------ *)
(** ** [keras.layers.LayerNormalization] (axis -1, epsilon 1e-3) *)

Record LNW := mkLNW { gamma : Vec; beta : Vec }.

Record LayerNormalization := mkLN { ln_weights : option LNW }.

Definition ln_epsilon : R := 1 / 1000.

Definition mean (v : Vec) : R := sumR v / INR (length v).

Definition variance (v : Vec) : R :=
  let mu := mean v in mean (map (fun a => (a - mu) ^ 2) v).

(** [(x - mean) * rsqrt(variance + epsilon) * gamma + beta]. *)
Definition layer_norm_vec (W : LNW) (v : Vec) : Vec :=
  let mu := mean v in
  let s := sqrt (variance v + ln_epsilon) in
  zipWith Rplus (zipWith (fun a g => (a - mu) / s * g) v (gamma W)) (beta W).

(** [build]: [gamma] initialised to ones, [beta] to zeros. *)
Definition ln_build (dim : nat) : LNW := mkLNW (repeat 1 dim) (repeat 0 dim).

Definition ln_built (L : LayerNormalization) (dim : nat) : LNW :=
  match ln_weights L with Some W => W | None => ln_build dim end.

(** [LayerNormalization.__call__]: build on first use, then normalise. *)
Definition ln_layer_call (L : LayerNormalization) (dim : nat) (x : T3)
  : T3 * LayerNormalization :=
  let W := ln_built L dim in
  (t3_map (layer_norm_vec W) x, mkLN (Some W)).

(* ------------------------------------------------------------------ *)
(** ** The framework's global random generator *)

(** [rng_seed] is the seed last given to [set_random_seed]; [rng_drawn]
    counts the scalars drawn since.  A [Generator] is the framework's
    algorithm: the uniform [0,1) value of the [k]-th draw under a seed. *)
Record World := mkWorld { rng_seed : Z; rng_drawn : nat }.

Definition Generator := Z -> nat -> R.

Definition draws (gen : Generator) (w : World) (n : nat) : list R * World :=
  (map (fun i => gen (rng_seed w) (rng_drawn w + i)%nat) (seq 0 n),
   mkWorld (rng_seed w) (rng_drawn w + n)).

(** [tf.keras.utils.set_random_seed]: a fresh generator under [s]. *)
Definition set_random_seed (s : Z) (w : World) : World := mkWorld s 0.

(** [glorot_uniform]: [VarianceScaling(1, "fan_avg", "uniform")]. *)
Definition glorot_limit (fan_in fan_out : nat) : R :=
  sqrt (3 / Rmax 1 (INR (fan_in + fan_out) / 2)).

Definition glorot_uniform (fan_in fan_out : nat) (u : R) : R :=
  - glorot_limit fan_in fan_out + 2 * glorot_limit fan_in fan_out * u.

(** Columns of a [(din, dout)] kernel filled in row-major order. *)
Definition dense_columns (flat : list R) (din dout : nat) : list Vec :=
  map (fun j => map (fun r => nth (r * dout + j)%nat flat 0) (seq 0 din))
      (seq 0 dout).

(** [Dense.build] for [din] inputs: glorot kernel, zero bias. *)
Definition dense_build (gen : Generator) (din dout : nat) (w : World)
  : DenseW * World :=
  let '(flat, w') := draws gen w (din * dout) in
  (mkDenseW (dense_columns (map (glorot_uniform din dout) flat) din dout)
            (repeat 0 dout), w').

(* ------------------------------------------------------------------ *)
(** ** [keras.layers.MultiHeadAttention] *)

(** The weights of one head: the slices [kernel[:, h, :]] of the query,
    key and value projections with their biases, and the slice
    [kernel[h, :, :]] of the output projection. *)
Record HeadW := mkHeadW {
  wq : list Vec; bq : Vec;
  wk : list Vec; bk : Vec;
  wv : list Vec; bv : Vec;
  wo : list Vec
}.

Record MHAW := mkMHAW { heads : list HeadW; bo : Vec }.

Record MultiHeadAttention := mkMHA {
  mha_num_heads : nat;
  mha_key_dim : nat;
  mha_weights : option MHAW
}.

(** The masked softmax of [keras.layers.Softmax] (Keras 3): it adds
    [(1 - mask)] times a large negative number to the scores, takes the
    softmax and multiplies the result by the mask.  Where a row has a
    valid key, the masked weights are exactly zero and the valid ones form
    the softmax over the valid keys; where every key is masked, the
    product with the mask makes every weight zero.  Both outcomes are
    written out exactly here. *)
Definition softmax (s : Vec) : Vec :=
  let e := map exp s in map (fun a => a / sumR e) e.

Definition masked_softmax (m : option (list bool)) (s : Vec) : Vec :=
  match m with
  | Some mrow =>
      if existsb (fun b => b) mrow then
        let e := zipWith (fun (b : bool) (a : R) => if b then exp a else 0) mrow s in
        map (fun a => a / sumR e) e
      else map (fun _ => 0) s
  | None => softmax s
  end.

(** [sum_j w_j * v_j] over vectors of length [n]. *)
Fixpoint wsum (n : nat) (w : list R) (vs : Mat) : Vec :=
  match w, vs with
  | a :: w', v :: vs' => vadd (vscale a v) (wsum n w' vs')
  | _, _ => repeat 0 n
  end.

(** One head, one query position: the query is scaled by
    [1 / sqrt(key_dim)] before the dot products with the keys. *)
Definition head_scores (kd : nat) (H : HeadW) (xq : Vec) (key : Mat) : Vec :=
  let q := vscale (/ sqrt (INR kd)) (affine (wq H) (bq H) xq) in
  let ks := map (affine (wk H) (bk H)) key in
  map (dot q) ks.

Definition head_weights (kd : nat) (H : HeadW) (m : option (list bool))
    (xq : Vec) (key : Mat) : Vec :=
  masked_softmax m (head_scores kd H xq key).

Definition head_attend (kd : nat) (H : HeadW) (m : option (list bool))
    (xq : Vec) (key value : Mat) : Vec :=
  let vs := map (affine (wv H) (bv H)) value in
  wsum kd (head_weights kd H m xq key) vs.

(** The output projection sums the heads' contributions and adds its bias. *)
Definition mha_query (kd : nat) (W : MHAW) (m : option (list bool))
    (xq : Vec) (key value : Mat) : Vec :=
  fold_left (fun acc H => vadd acc (linmap (wo H) (head_attend kd H m xq key value)))
            (heads W) (bo W).

(** Broadcasting of a per-sample attention mask of shape [(1, Lk)] or
    [(Lq, Lk)] against the query axis: the row that applies to query [i]. *)
Definition mask_row (M : list (list bool)) (i : nat) : list bool :=
  nth (if Nat.eqb (length M) 1 then O else i) M [].

Definition mha_seq (kd : nat) (W : MHAW) (M : option (list (list bool)))
    (query key value : Mat) : Mat :=
  map (fun i => mha_query kd W (option_map (fun M => mask_row M i) M)
                          (nth i query []) key value)
      (seq 0 (length query)).

Definition mha_apply (kd : nat) (W : MHAW) (query key value : T3)
    (attention_mask : option (list (list (list bool)))) : T3 :=
  map (fun b => mha_seq kd W (option_map (fun M => nth b M []) attention_mask)
                        (nth b query []) (nth b key []) (nth b value []))
      (seq 0 (length query)).

(** Kernel [(d, h, k)] of a query/key/value projection: head [hd]'s
    [k] columns of length [d]. *)
Definition in_columns (flat : list R) (d h k hd : nat) : list Vec :=
  map (fun c => map (fun r => nth (r * h * k + hd * k + c)%nat flat 0) (seq 0 d))
      (seq 0 k).

(** Kernel [(h, k, d)] of the output projection: head [hd]'s [d] columns
    of length [k]. *)
Definition out_columns (flat : list R) (h k d hd : nat) : list Vec :=
  map (fun j => map (fun c => nth (hd * k * d + c * d + j)%nat flat 0) (seq 0 k))
      (seq 0 d).

(** [_build_from_signature] on queries of last dimension [d]: glorot
    kernels drawn for query, key, value and output projections in that
    order (fans as [_compute_fans] gives them for 3-D kernels), zero biases. *)
Definition mha_build (gen : Generator) (h k d : nat) (w : World) : MHAW * World :=
  let '(fq, w1) := draws gen w (d * h * k) in
  let '(fk, w2) := draws gen w1 (d * h * k) in
  let '(fv, w3) := draws gen w2 (d * h * k) in
  let '(fo, w4) := draws gen w3 (h * k * d) in
  let gi := map (glorot_uniform (h * d) (k * d)) in
  let go := map (glorot_uniform (k * h) (d * h)) in
  (mkMHAW
     (map (fun hd =>
             mkHeadW (in_columns (gi fq) d h k hd) (repeat 0 k)
                     (in_columns (gi fk) d h k hd) (repeat 0 k)
                     (in_columns (gi fv) d h k hd) (repeat 0 k)
                     (out_columns (go fo) h k d hd))
          (seq 0 h))
     (repeat 0 d), w4).

(** The weights in use: the existing ones, or those built now. *)
Definition mha_built (gen : Generator) (A : MultiHeadAttention) (dim : nat) (w : World)
  : MHAW * World :=
  match mha_weights A with
  | Some W => (W, w)
  | None => mha_build gen (mha_num_heads A) (mha_key_dim A) dim w
  end.

(** [MultiHeadAttention.__call__]: build on first use, then attend. *)
Definition mha_layer_call (gen : Generator) (A : MultiHeadAttention) (w : World)
    (dim : nat) (query key value : T3)
    (attention_mask : option (list (list (list bool))))
  : T3 * MultiHeadAttention * World :=
  let '(W, w') := mha_built gen A dim w in
  (mha_apply (mha_key_dim A) W query key value attention_mask,
   mkMHA (mha_num_heads A) (mha_key_dim A) (Some W), w').

(* ------------------------------------------------------------------ *)
(** ** [TransformerEncoder] *)

(** The attributes [keras.layers.Layer.__init__] keeps from its keyword
    arguments and reports back in [get_config]. *)
Record LayerBase := mkLayerBase { layer_name : string; trainable : bool; dtype : string }.

Record TransformerEncoder := mkTE {
  base : LayerBase;
  num_heads : nat;
  embed_dim : nat;
  dense_units : nat;
  attention : MultiHeadAttention;
  dense : list Dense;
  first_layer_norm : LayerNormalization;
  second_layer_norm : LayerNormalization;
  supports_masking : bool
}.

(** [__init__].  The [Sequential] starts with an [Input], so its two
    [Dense] layers create their weights here; the attention and the two
    normalisations create theirs on the first call. *)
Definition TransformerEncoder_init (gen : Generator) (num_heads embed_dim dense_units : nat)
    (b : LayerBase) (w : World) : TransformerEncoder * World :=
  let attention := mkMHA num_heads embed_dim None in
  let '(W1, w1) := dense_build gen embed_dim dense_units w in
  let '(W2, w2) := dense_build gen dense_units embed_dim w1 in
  let dense := [mkDense dense_units Relu W1; mkDense embed_dim Linear W2] in
  (mkTE b num_heads embed_dim dense_units attention dense (mkLN None) (mkLN None) true,
   w2).

(** A tensor as [call] receives it: its static shape and its values. *)
Record Tensor := mkTensor { shape : nat * nat * nat; values : T3 }.

Definition last_dim (t : Tensor) : nat := snd (shape t).

(** [mask[:, tf.newaxis, :]]: [(batch, length)] to [(batch, 1, length)]. *)
Definition expand_mask (mask : list (list bool)) : list (list (list bool)) :=
  map (fun row => [row]) mask.

Definition with_sublayers (self : TransformerEncoder) (A : MultiHeadAttention)
    (L1 L2 : LayerNormalization) : TransformerEncoder :=
  mkTE (base self) (num_heads self) (embed_dim self) (dense_units self) A
       (dense self) L1 L2 (supports_masking self).

(** [call], through the sub-layers' [__call__]: returns the output, the
    instance with its sub-layers as they are afterwards, and the world. *)
Definition call (gen : Generator) (self : TransformerEncoder) (w : World)
    (inputs : Tensor) (mask : option (list (list bool)))
  : T3 * TransformerEncoder * World :=
  let mask := option_map expand_mask mask in
  let d := last_dim inputs in
  let x := values inputs in
  let '(attention_output, A, w') :=
    mha_layer_call gen (attention self) w d x x x mask in
  let '(proj_input, L1) :=
    ln_layer_call (first_layer_norm self) d (t3_add x attention_output) in
  let proj_output := sequential_call (dense self) proj_input in
  let '(output, L2) :=
    ln_layer_call (second_layer_norm self) d (t3_add proj_input proj_output) in
  (output, with_sublayers self A L1 L2, w').

(* ------------------------------------------------------------------ *)
(** ** [get_config] and reconstruction from a config *)

Inductive PyVal := PyInt (z : Z) | PyStr (s : string) | PyBool (b : bool).

Definition base_get_config (b : LayerBase) : gmap string PyVal :=
  <["name" := PyStr (layer_name b)]>
    (<["trainable" := PyBool (trainable b)]>
       (<["dtype" := PyStr (dtype b)]> ∅)).

(** [dict.update]: the entries of [u] override those of [d]. *)
Definition dict_update (d u : gmap string PyVal) : gmap string PyVal := u ∪ d.

Definition get_config (self : TransformerEncoder) : gmap string PyVal :=
  let config := base_get_config (base self) in
  dict_update config
    (<["num_heads" := PyInt (Z.of_nat (num_heads self))]>
       (<["embed_dim" := PyInt (Z.of_nat (embed_dim self))]>
          (<["dense_units" := PyInt (Z.of_nat (dense_units self))]> ∅))).

(** [keras.layers.Layer.__init__] on the keyword arguments: only its own keywords are
    accepted ([TypeError] otherwise); absent ones take their defaults. *)
Definition layer_kwargs : list string := ["name"; "trainable"; "dtype"].

Definition kw_str (v : option PyVal) (default : string) : option string :=
  match v with
  | None => Some default
  | Some (PyStr s) => Some s
  | Some _ => None
  end.

Definition kw_bool (v : option PyVal) (default : bool) : option bool :=
  match v with
  | None => Some default
  | Some (PyBool b) => Some b
  | Some _ => None
  end.

Definition layer_init (kwargs : gmap string PyVal) : option LayerBase :=
  if forallb (fun kv => existsb (String.eqb kv.1) layer_kwargs) (map_to_list kwargs)
  then
    match kw_str (kwargs !! "name") "transformer_encoder",
          kw_bool (kwargs !! "trainable") true,
          kw_str (kwargs !! "dtype") "float32" with
    | Some n, Some t, Some d => Some (mkLayerBase n t d)
    | _, _, _ => None
    end
  else None.

(** A size argument: a non-negative Python int (a negative size makes the
    weight creation fail). *)
Definition size_arg (v : option PyVal) : option nat :=
  match v with
  | Some (PyInt z) => if (0 <=? z)%Z then Some (Z.to_nat z) else None
  | _ => None
  end.

(** [Layer.from_config]: [cls] called with the config as keyword arguments. *)
Definition from_config (gen : Generator) (config : gmap string PyVal) (w : World)
  : option (TransformerEncoder * World) :=
  match size_arg (config !! "num_heads"), size_arg (config !! "embed_dim"),
        size_arg (config !! "dense_units") with
  | Some h, Some e, Some u =>
      match layer_init (delete "num_heads" (delete "embed_dim"
                          (delete "dense_units" config))) with
      | Some b => Some (TransformerEncoder_init gen h e u b w)
      | None => None
      end
  | _, _, _ => None
  end.

(* ------------------------------------------------------------------ *)
(** ** Module import *)

(** Importing [encoder.py] runs its module-level statement
    [tf.keras.utils.set_random_seed(42)]. *)
Definition import_encoder_module (w : World) : World := set_random_seed 42 w.

(* ------------------------------------------------------------------ *)
(** ** Auxiliary definitions for the proofs *)

(** The forward pass of [call] once every weight exists. *)
Definition block_forward (kd : nat) (A : MHAW) (L1 L2 : LNW) (layers : list Dense)
    (x : T3) (mask : option (list (list bool))) : T3 :=
  let mask := option_map expand_mask mask in
  let attention_output := mha_apply kd A x x x mask in
  let proj_input := t3_map (layer_norm_vec L1) (t3_add x attention_output) in
  let proj_output := sequential_call layers proj_input in
  t3_map (layer_norm_vec L2) (t3_add proj_input proj_output).

(** The block as the specification describes it: self-attention with the
    expanded mask, add and normalise, a ReLU expansion followed by a
    linear contraction, add and normalise with the second unit. *)
Definition spec_block (kd : nat) (A : MHAW) (L1 L2 : LNW) (expand contract : DenseW)
    (x : T3) (mask : option (list (list bool))) : T3 :=
  let a := mha_apply kd A x x x (option_map expand_mask mask) in
  let p := t3_map (layer_norm_vec L1) (t3_add x a) in
  let h := t3_map (map relu) (t3_map (affine (kernel expand) (bias expand)) p) in
  let f := t3_map (affine (kernel contract) (bias contract)) h in
  t3_map (layer_norm_vec L2) (t3_add p f).

Definition vec_shape (d : nat) (v : Vec) : Prop := length v = d.

Definition mat_shape (L d : nat) (m : Mat) : Prop :=
  length m = L /\ Forall (vec_shape d) m.

Definition t3_shape (B L d : nat) (x : T3) : Prop :=
  length x = B /\ Forall (mat_shape L d) x.

Definition mhaw_wf (d : nat) (W : MHAW) : Prop :=
  length (bo W) = d /\ Forall (fun H => length (wo H) = d) (heads W).

Definition lnw_wf (d : nat) (W : LNW) : Prop :=
  length (gamma W) = d /\ length (beta W) = d.

Definition dense_wf (D : Dense) : Prop :=
  length (kernel (dense_weights D)) = units D /\
  length (bias (dense_weights D)) = units D.

(** The shapes of an instance's weights fit embeddings of size [d]. *)
Definition encoder_wf (d : nat) (self : TransformerEncoder) : Prop :=
  (forall W, mha_weights (attention self) = Some W -> mhaw_wf d W) /\
  (forall W, ln_weights (first_layer_norm self) = Some W -> lnw_wf d W) /\
  (forall W, ln_weights (second_layer_norm self) = Some W -> lnw_wf d W) /\
  (exists D1 D2, dense self = [D1; D2] /\ dense_wf D1 /\ dense_wf D2 /\ units D2 = d).

(** A generator whose every draw is [1/2], the centre of the glorot range. *)
Definition gen_half : Generator := fun _ _ => 1 / 2.

Definition base0 : LayerBase := mkLayerBase "transformer_encoder" true "float32".

(** The embedding vector at batch entry [b], position [i]. *)
Definition at3 (t : T3) (b i : nat) : option Vec :=
  match nth_error t b with
  | Some r => nth_error r i
  | None => None
  end.

Definition world42 : World := mkWorld 42 0.

(** A batch of one sequence of two 4-dimensional embeddings. *)
Definition input_1x2x4 : Tensor :=
  mkTensor (1, 2, 4)%nat [[[1; 2; 3; 4]; [5; 6; 7; 8]]].

(** The instance constructed with a generator whose every draw is the
    midpoint [1/2] of the unit interval, so that every glorot weight is
    zero; and two inputs of shape [(1, 2, 2)] that differ only at their
    second position. *)
Definition enc_half : TransformerEncoder :=
  fst (TransformerEncoder_init gen_half 1 2 1 base0 world42).

Definition x_pad0 : Tensor := mkTensor (1, 2, 2)%nat [[[0; 0]; [0; 0]]].
Definition x_pad1 : Tensor := mkTensor (1, 2, 2)%nat [[[0; 0]; [1; -1]]].

(** Two batches of two one-position sequences that share their first
    sequence. *)
Definition x_two0 : Tensor := mkTensor (2, 1, 2)%nat [[[0; 0]]; [[1; 2]]].
Definition x_two1 : Tensor := mkTensor (2, 1, 2)%nat [[[0; 0]]; [[3; 4]]].

(** Reordering of the positions of a sequence: position [i] of the result
    holds position [nth i p] of [l]. *)
Definition permute {A : Type} (p : list nat) (d : A) (l : list A) : list A :=
  map (fun j => nth j l d) p.

(** [x_pad1] with its two positions swapped. *)
Definition x_swap : Tensor := mkTensor (1, 2, 2)%nat [[[1; -1]; [0; 0]]].

(* ------------------------------------------------------------------ *)
(** ** Generic list lemmas *)

Lemma length_zipWith {A B C : Type} (f : A -> B -> C) l1 l2 :
  length (zipWith f l1 l2) = Nat.min (length l1) (length l2).
Proof.
  revert l2; induction l1 as [|a t IH]; intros [|b l2]; simpl; auto.
Qed.

Lemma nth_error_zipWith {A B C : Type} (f : A -> B -> C) l1 l2 n :
  nth_error (zipWith f l1 l2) n =
  match nth_error l1 n, nth_error l2 n with
  | Some a, Some b => Some (f a b)
  | _, _ => None
  end.
Proof.
  revert l2 n; induction l1 as [|a t IH]; intros [|b l2] [|n]; simpl; auto.
  destruct (nth_error t n); reflexivity.
Qed.

Lemma Forall_zipWith {A B C : Type} (P : A -> Prop) (Q : B -> Prop) (S : C -> Prop)
    (f : A -> B -> C) l1 l2 :
  (forall a b, P a -> Q b -> S (f a b)) ->
  Forall P l1 -> Forall Q l2 -> Forall S (zipWith f l1 l2).
Proof.
  intros Hf H1; revert l2; induction H1; intros [|b l2] H2; simpl; constructor.
  - inversion H2; subst; auto.
  - inversion H2; subst; auto.
Qed.

Lemma nth_error_map_seq {A : Type} (g : nat -> A) len k :
  (k < len)%nat -> nth_error (map g (seq 0 len)) k = Some (g k).
Proof.
  intros Hk. rewrite nth_error_map, nth_error_seq.
  destruct (Nat.ltb_spec k len); [reflexivity | lia].
Qed.

Lemma size_arg_of_nat (n : nat) : size_arg (Some (PyInt (Z.of_nat n))) = Some n.
Proof.
  unfold size_arg. rewrite (proj2 (Z.leb_le 0 (Z.of_nat n)) (Nat2Z.is_nonneg n)).
  rewrite Nat2Z.id. reflexivity.
Qed.

(* ------------------------------------------------------------------ *)
(** ** [call] unfolded *)

Lemma call_eq (gen : Generator) (self : TransformerEncoder) (w : World)
    (x : Tensor) (m : option (list (list bool))) :
  call gen self w x m =
  let d := last_dim x in
  let '(W, w') := mha_built gen (attention self) d w in
  let L1 := ln_built (first_layer_norm self) d in
  let L2 := ln_built (second_layer_norm self) d in
  (block_forward (mha_key_dim (attention self)) W L1 L2 (dense self) (values x) m,
   with_sublayers self
     (mkMHA (mha_num_heads (attention self)) (mha_key_dim (attention self)) (Some W))
     (mkLN (Some L1)) (mkLN (Some L2)),
   w').
Proof.
  unfold call, mha_layer_call. cbv zeta.
  destruct (mha_built gen (attention self) (last_dim x) w) as [W w'].
  reflexivity.
Qed.

Lemma mha_built_some (gen : Generator) (A : MultiHeadAttention) d w W :
  mha_weights A = Some W -> mha_built gen A d w = (W, w).
Proof. unfold mha_built. intros ->. reflexivity. Qed.

Lemma ln_built_some (L : LayerNormalization) d W :
  ln_weights L = Some W -> ln_built L d = W.
Proof. unfold ln_built. intros ->. reflexivity. Qed.

(* ------------------------------------------------------------------ *)
(** ** Shapes *)

Lemma length_affine W b v : length (affine W b v) = Nat.min (length W) (length b).
Proof. unfold affine, vadd, linmap. rewrite length_zipWith, length_map. reflexivity. Qed.

Lemma length_dense_vec D v :
  dense_wf D -> length (dense_vec D v) = units D.
Proof.
  intros [Hk Hb]. unfold dense_vec. rewrite length_map, length_affine, Hk, Hb. lia.
Qed.

Lemma length_layer_norm_vec d W v :
  lnw_wf d W -> length v = d -> length (layer_norm_vec W v) = d.
Proof.
  intros [Hg Hb] Hv. unfold layer_norm_vec.
  rewrite !length_zipWith, Hg, Hb, Hv. lia.
Qed.

Lemma ln_build_wf d : lnw_wf d (ln_build d).
Proof. split; apply repeat_length. Qed.

Lemma ln_built_wf L d :
  (forall W, ln_weights L = Some W -> lnw_wf d W) -> lnw_wf d (ln_built L d).
Proof.
  intros HL. unfold ln_built. destruct (ln_weights L) as [W|].
  - apply HL. reflexivity.
  - apply ln_build_wf.
Qed.

Lemma length_mha_query kd W m xq key value d :
  mhaw_wf d W -> length (mha_query kd W m xq key value) = d.
Proof.
  intros [Hbo Hwo]. unfold mha_query. revert Hbo. generalize (bo W) as acc.
  induction Hwo as [|H hs HH Hs IH]; intros acc Hacc; simpl; [exact Hacc|].
  apply IH. unfold vadd, linmap. rewrite length_zipWith, length_map, HH, Hacc. lia.
Qed.

Lemma t3_shape_map B L d d' (f : Vec -> Vec) x :
  (forall v, length v = d -> length (f v) = d') ->
  t3_shape B L d x -> t3_shape B L d' (t3_map f x).
Proof.
  intros Hf [Hx Hm]. split; [unfold t3_map; rewrite length_map; exact Hx|].
  unfold t3_map. apply Forall_map. eapply Forall_impl; [exact Hm|].
  intros a [Ha Hv]. split; [rewrite length_map; exact Ha|].
  apply Forall_map. eapply Forall_impl; [exact Hv|]. intros v Hl. apply Hf, Hl.
Qed.

Lemma t3_shape_add B L d x y :
  t3_shape B L d x -> t3_shape B L d y -> t3_shape B L d (t3_add x y).
Proof.
  intros [Hx Hmx] [Hy Hmy]. split.
  - unfold t3_add. rewrite length_zipWith, Hx, Hy. lia.
  - unfold t3_add. revert Hmx Hmy. apply Forall_zipWith.
    intros a b [Ha Hva] [Hb Hvb]. split.
    + rewrite length_zipWith, Ha, Hb. lia.
    + revert Hva Hvb. apply Forall_zipWith. intros u v Hu Hv.
      unfold vec_shape, vadd in *. rewrite length_zipWith, Hu, Hv. lia.
Qed.

Lemma mha_apply_shape kd W x am B L d :
  mhaw_wf d W -> t3_shape B L d x -> t3_shape B L d (mha_apply kd W x x x am).
Proof.
  intros HW [Hx Hm]. split; [unfold mha_apply; rewrite length_map, length_seq; exact Hx|].
  apply List.Forall_forall. intros a Ha. unfold mha_apply in Ha.
  apply in_map_iff in Ha as [b [<- Hb]]. apply in_seq in Hb.
  assert (Hxb : mat_shape L d (nth b x [])).
  { rewrite List.Forall_forall in Hm. apply Hm, nth_In. lia. }
  destruct Hxb as [HL _]. split.
  - unfold mha_seq. rewrite length_map, length_seq. exact HL.
  - apply List.Forall_forall. intros v Hv. unfold mha_seq in Hv.
    apply in_map_iff in Hv as [i [<- _]]. apply (length_mha_query _ _ _ _ _ _ d HW).
Qed.

Lemma block_forward_shape kd A L1 L2 D1 D2 x m B L d :
  mhaw_wf d A -> lnw_wf d L1 -> lnw_wf d L2 -> dense_wf D1 -> dense_wf D2 ->
  units D2 = d -> t3_shape B L d x ->
  t3_shape B L d (block_forward kd A L1 L2 [D1; D2] x m).
Proof.
  intros HA H1 H2 HD1 HD2 Hu Hx. unfold block_forward, sequential_call. simpl.
  assert (Hp : t3_shape B L d
                 (t3_map (layer_norm_vec L1)
                    (t3_add x (mha_apply kd A x x x (option_map expand_mask m))))).
  { eapply t3_shape_map; [|apply t3_shape_add; [exact Hx|apply mha_apply_shape; assumption]].
    intros v Hv. apply (length_layer_norm_vec d); assumption. }
  eapply t3_shape_map; [intros v Hv; apply (length_layer_norm_vec d); eassumption|].
  apply t3_shape_add; [exact Hp|].
  eapply t3_shape_map; [|eapply t3_shape_map; [|exact Hp]].
  - intros v _. rewrite length_dense_vec; assumption.
  - intros v _. apply length_dense_vec. exact HD1.
Qed.

Lemma mha_build_wf gen h k d w : mhaw_wf d (fst (mha_build gen h k d w)).
Proof.
  unfold mha_build, draws. simpl. split; [apply repeat_length|].
  apply Forall_map, List.Forall_forall. intros hd _. simpl.
  unfold out_columns. rewrite length_map, length_seq. reflexivity.
Qed.

Lemma mha_built_wf gen A d w :
  (forall W, mha_weights A = Some W -> mhaw_wf d W) ->
  mhaw_wf d (fst (mha_built gen A d w)).
Proof.
  intros HA. unfold mha_built. destruct (mha_weights A) as [W|]; simpl.
  - apply HA. reflexivity.
  - apply mha_build_wf.
Qed.

(** A call on a fitting instance keeps the shape and the fit. *)
Lemma call_shape gen self w x m B L d :
  encoder_wf d self -> last_dim x = d -> t3_shape B L d (values x) ->
  t3_shape B L d (fst (fst (call gen self w x m))) /\
  encoder_wf d (snd (fst (call gen self w x m))).
Proof.
  intros (HA & H1 & H2 & D1 & D2 & HD & HD1 & HD2 & Hu) Hd Hx.
  rewrite call_eq. cbv zeta. rewrite Hd.
  pose proof (mha_built_wf gen (attention self) d w HA) as HW.
  destruct (mha_built gen (attention self) d w) as [W w'].
  simpl in HW |- *.
  pose proof (ln_built_wf _ d H1) as HL1. pose proof (ln_built_wf _ d H2) as HL2.
  split.
  - rewrite HD. apply block_forward_shape; assumption.
  - unfold encoder_wf. simpl. split; [|split; [|split]].
    + intros W1 HW1. injection HW1 as <-. exact HW.
    + intros W1 HW1. injection HW1 as <-. exact HL1.
    + intros W1 HW1. injection HW1 as <-. exact HL2.
    + exists D1, D2. auto.
Qed.

Lemma dense_build_wf gen din dout w u a :
  u = dout -> dense_wf (mkDense u a (fst (dense_build gen din dout w))).
Proof.
  intros ->. unfold dense_build, draws, dense_wf. simpl.
  unfold dense_columns. rewrite length_map, length_seq, repeat_length. auto.
Qed.

Lemma init_wf gen nh d du b w :
  encoder_wf d (fst (TransformerEncoder_init gen nh d du b w)).
Proof.
  unfold TransformerEncoder_init.
  pose proof (dense_build_wf gen d du w du Relu eq_refl) as HW1.
  destruct (dense_build gen d du w) as [W1 w1] eqn:E1.
  pose proof (dense_build_wf gen du d w1 d Linear eq_refl) as HW2.
  destruct (dense_build gen du d w1) as [W2 w2] eqn:E2. simpl in *.
  split; [|split; [|split]]; simpl; try discriminate.
  exists (mkDense du Relu W1), (mkDense d Linear W2). auto.
Qed.

(* ------------------------------------------------------------------ *)
(** ** Masks *)

Lemma masked_softmax_all_true n s :
  length s = n -> masked_softmax (Some (repeat true n)) s = softmax s.
Proof.
  intros Hs. destruct n as [|n]; [destruct s; [reflexivity|discriminate]|].
  assert (He : zipWith (fun (b : bool) (a : R) => if b then exp a else 0)
                 (repeat true (S n)) s = map exp s).
  { revert s Hs. generalize (S n). clear n. intros n.
    induction n as [|n IH]; intros [|a s] Hs; simpl in *; try discriminate; auto.
    rewrite IH; auto. }
  unfold masked_softmax.
  replace (existsb (fun b => b) (repeat true (S n))) with true by reflexivity.
  rewrite He. reflexivity.
Qed.

Lemma length_head_scores kd H xq key : length (head_scores kd H xq key) = length key.
Proof. unfold head_scores. rewrite !length_map. reflexivity. Qed.

Lemma mha_query_weights_ext kd W m1 m2 xq key value :
  (forall H, head_weights kd H m1 xq key = head_weights kd H m2 xq key) ->
  mha_query kd W m1 xq key value = mha_query kd W m2 xq key value.
Proof.
  intros Hw. unfold mha_query. generalize (bo W). induction (heads W) as [|H hs IH];
    intros acc; cbn [fold_left]; [reflexivity|].
  replace (head_attend kd H m1 xq key value) with (head_attend kd H m2 xq key value)
    by (unfold head_attend; rewrite Hw; reflexivity).
  apply IH.
Qed.

Lemma nth_expand_repeat (r : list bool) B b :
  (b < B)%nat -> nth b (expand_mask (repeat r B)) [] = [r].
Proof.
  revert b; induction B as [|B IH]; intros [|b] Hb; simpl; try lia; auto.
  apply IH. lia.
Qed.

Lemma mha_apply_all_true kd W x B L d :
  t3_shape B L d x ->
  mha_apply kd W x x x (Some (expand_mask (repeat (repeat true L) B))) =
  mha_apply kd W x x x None.
Proof.
  intros [Hx Hm]. unfold mha_apply. apply map_ext_in. intros b Hb.
  apply in_seq in Hb. simpl option_map.
  rewrite nth_expand_repeat by lia.
  assert (HL : length (nth b x []) = L).
  { rewrite List.Forall_forall in Hm. apply Hm, nth_In. lia. }
  unfold mha_seq. apply map_ext. intros i. simpl option_map.
  apply mha_query_weights_ext. intros H. unfold head_weights.
  unfold mask_row. simpl. apply masked_softmax_all_true.
  rewrite length_head_scores. exact HL.
Qed.

Lemma existsb_of_nth (l : list bool) j :
  nth j l false = true -> existsb (fun c => c) l = true.
Proof.
  revert j; induction l as [|c l IH]; intros [|j] Hj; simpl in *; try discriminate.
  - rewrite Hj. reflexivity.
  - rewrite (IH j Hj). apply orb_true_r.
Qed.

Lemma nth_zipWith {A B C : Type} (f : A -> B -> C) l1 l2 j da db dc :
  (j < length (zipWith f l1 l2))%nat ->
  nth j (zipWith f l1 l2) dc = f (nth j l1 da) (nth j l2 db).
Proof.
  revert l2 j; induction l1 as [|a l1 IH]; intros [|b l2] [|j] Hj; simpl in *; try lia; auto.
  apply IH. lia.
Qed.

Lemma nth_map_lt {A B : Type} (f : A -> B) l j da db :
  (j < length l)%nat -> nth j (map f l) db = f (nth j l da).
Proof.
  intros Hj. rewrite (nth_indep _ db (f da)) by (rewrite length_map; exact Hj).
  apply map_nth.
Qed.

(** Where a row has a valid key, every masked key gets weight zero. *)
Lemma masked_weight_zero (row : list bool) s j :
  existsb (fun c => c) row = true -> nth j row false = false ->
  nth j (masked_softmax (Some row) s) 0 = 0.
Proof.
  intros Hex Hj. unfold masked_softmax. rewrite Hex. cbv zeta.
  set (e := zipWith (fun (b : bool) (a : R) => if b then exp a else 0) row s).
  destruct (Nat.lt_ge_cases j (length e)) as [Hlt|Hge].
  - rewrite (nth_map_lt _ _ _ 0 0) by exact Hlt. unfold e at 1. rewrite (nth_zipWith _ _ _ _ false 0) by exact Hlt.
    rewrite Hj. unfold Rdiv. apply Rmult_0_l.
  - apply nth_overflow. rewrite length_map. exact Hge.
Qed.


Lemma mask_row_expand (m : list (list bool)) b i :
  mask_row (nth b (expand_mask m) []) i = nth b m [].
Proof.
  revert b; induction m as [|r m IH]; intros [|b]; simpl;
    [destruct i; reflexivity .. | reflexivity | apply IH].
Qed.

Lemma nth_eq_of_nth_error {A : Type} (l l' : list A) j d :
  nth_error l j = nth_error l' j -> nth j l d = nth j l' d.
Proof.
  intros E. destruct (nth_error l j) as [a|] eqn:El.
  - rewrite (nth_error_nth l j d El). symmetry in E. symmetry. apply (nth_error_nth l' j d E).
  - apply nth_error_None in El. symmetry in E. apply nth_error_None in E.
    rewrite !nth_overflow by assumption. reflexivity.
Qed.

Lemma vscale_0 v : vscale 0 v = repeat 0 (length v).
Proof. induction v as [|a v IH]; simpl; [reflexivity|]. rewrite Rmult_0_l, IH. reflexivity. Qed.

Lemma wsum_map_ext n w (V : Vec -> Vec) (key key' : Mat) :
  (forall u u', length (V u) = length (V u')) ->
  length key = length key' ->
  (forall j, nth j w 0 = 0 \/ nth j key [] = nth j key' []) ->
  wsum n w (map V key) = wsum n w (map V key').
Proof.
  intros HV. revert key key'.
  induction w as [|a w IH]; intros [|k key] [|k' key'] Hl Hj; simpl in *;
    try discriminate; try reflexivity.
  f_equal.
  - destruct (Hj O) as [-> | ->]; [|reflexivity].
    rewrite !vscale_0, (HV k k'). reflexivity.
  - apply IH; [lia|]. intros j. apply (Hj (S j)).
Qed.

Lemma mha_query_ext kd W m1 m2 xq k1 k2 v1 v2 :
  (forall H, head_attend kd H m1 xq k1 v1 = head_attend kd H m2 xq k2 v2) ->
  mha_query kd W m1 xq k1 v1 = mha_query kd W m2 xq k2 v2.
Proof.
  intros Hh. unfold mha_query. generalize (bo W). induction (heads W) as [|H hs IH];
    intros acc; cbn [fold_left]; [reflexivity|].
  rewrite Hh. apply IH.
Qed.

Lemma zipWith_mask_map_ext (g : Vec -> R) (row : list bool) (key key' : Mat) :
  length key = length key' ->
  (forall j, nth j row false = true -> nth j key [] = nth j key' []) ->
  zipWith (fun (b : bool) (a : R) => if b then exp a else 0) row (map g key) =
  zipWith (fun (b : bool) (a : R) => if b then exp a else 0) row (map g key').
Proof.
  revert key key'.
  induction row as [|c row IH]; intros [|k key] [|k' key'] Hl Hj; simpl in *;
    try discriminate; try reflexivity.
  f_equal.
  - destruct c; [|reflexivity]. rewrite (Hj O eq_refl). reflexivity.
  - apply IH; [lia|]. intros j. apply (Hj (S j)).
Qed.

(** With a valid key in its mask row, a query attends to the same thing
    whatever the masked keys hold. *)
Lemma mha_query_masked_ext kd W row xq (key key' : Mat) :
  existsb (fun c => c) row = true -> length key = length key' ->
  (forall j, nth j row false = true -> nth j key [] = nth j key' []) ->
  mha_query kd W (Some row) xq key key = mha_query kd W (Some row) xq key' key'.
Proof.
  intros Hex Hl Hj. apply mha_query_ext. intros H.
  assert (Hw : head_weights kd H (Some row) xq key = head_weights kd H (Some row) xq key').
  { unfold head_weights, head_scores, masked_softmax. rewrite Hex. cbv zeta.
    rewrite !map_map. rewrite (zipWith_mask_map_ext _ row key key' Hl Hj). reflexivity. }
  unfold head_attend. rewrite <- Hw.
  apply wsum_map_ext; [intros u u'; rewrite !length_affine; reflexivity|exact Hl|].
  intros j. destruct (nth j row false) eqn:Ej.
  - right. apply Hj, Ej.
  - left. unfold head_weights. apply masked_weight_zero; assumption.
Qed.

Lemma at3_t3_map (f : Vec -> Vec) t b i : at3 (t3_map f t) b i = option_map f (at3 t b i).
Proof.
  unfold at3, t3_map. rewrite nth_error_map.
  destruct (nth_error t b); simpl; [apply nth_error_map|reflexivity].
Qed.

Lemma at3_t3_add s t b i :
  at3 (t3_add s t) b i =
  match at3 s b i, at3 t b i with
  | Some u, Some v => Some (vadd u v)
  | _, _ => None
  end.
Proof.
  unfold at3, t3_add. rewrite nth_error_zipWith.
  destruct (nth_error s b), (nth_error t b); simpl; auto.
  - apply nth_error_zipWith.
  - destruct (nth_error l i); reflexivity.
Qed.

Lemma at3_sequential layers t b i :
  at3 (sequential_call layers t) b i =
  option_map (fun v => fold_left (fun v D => dense_vec D v) layers v) (at3 t b i).
Proof.
  unfold sequential_call. revert t; induction layers as [|D ls IH]; intros t.
  - simpl. destruct (at3 t b i); reflexivity.
  - cbn [fold_left]. rewrite IH, at3_t3_map. destruct (at3 t b i); reflexivity.
Qed.

(** The output at a position depends only on the input and the attention
    output at that position. *)
Lemma at3_block_forward kd A L1 L2 layers x m b i :
  at3 (block_forward kd A L1 L2 layers x m) b i =
  match at3 x b i, at3 (mha_apply kd A x x x (option_map expand_mask m)) b i with
  | Some v, Some a =>
      let p := layer_norm_vec L1 (vadd v a) in
      Some (layer_norm_vec L2
              (vadd p (fold_left (fun v D => dense_vec D v) layers p)))
  | _, _ => None
  end.
Proof.
  unfold block_forward. rewrite at3_t3_map, at3_t3_add, at3_sequential, !at3_t3_map, at3_t3_add.
  destruct (at3 x b i), (at3 (mha_apply kd A x x x (option_map expand_mask m)) b i);
    reflexivity.
Qed.

Lemma at3_mha_apply kd W x m b i :
  (b < length x)%nat -> (i < length (nth b x []))%nat ->
  at3 (mha_apply kd W x x x (Some (expand_mask m))) b i =
  Some (mha_query kd W (Some (nth b m [])) (nth i (nth b x []) []) (nth b x []) (nth b x [])).
Proof.
  intros Hb Hi. unfold at3, mha_apply. rewrite nth_error_map_seq by exact Hb.
  unfold mha_seq. rewrite nth_error_map_seq by exact Hi. simpl option_map.
  rewrite mask_row_expand. reflexivity.
Qed.

Lemma at3_mha_apply_none kd W x am b i :
  (length x <= b)%nat \/ (length (nth b x []) <= i)%nat ->
  at3 (mha_apply kd W x x x am) b i = None.
Proof.
  intros H. unfold at3, mha_apply. destruct (Nat.lt_ge_cases b (length x)) as [Hb|Hb].
  - rewrite nth_error_map_seq by exact Hb. unfold mha_seq.
    apply nth_error_None. rewrite length_map, length_seq. lia.
  - replace (nth_error _ b) with (@None Mat); [reflexivity|].
    symmetry. apply nth_error_None. rewrite length_map, length_seq. exact Hb.
Qed.

(** Zero weights give zero outputs. *)
Lemma glorot_half a c : glorot_uniform a c (1 / 2) = 0.
Proof. unfold glorot_uniform. lra. Qed.

Lemma draws_half_zero a c w n :
  map (glorot_uniform a c) (fst (draws gen_half w n)) = repeat 0 n.
Proof.
  unfold draws, gen_half. cbn [fst]. rewrite map_map, glorot_half, List.map_const.
  rewrite length_seq. reflexivity.
Qed.

Lemma dense_columns_zero n din dout :
  dense_columns (repeat 0 n) din dout = repeat (repeat 0 din) dout.
Proof.
  unfold dense_columns.
  transitivity (map (fun _ : nat => repeat 0 din) (seq 0 dout)).
  - apply map_ext. intro j.
    transitivity (map (fun _ : nat => 0) (seq 0 din)).
    + apply map_ext. intro r. apply List.nth_repeat.
    + rewrite List.map_const, length_seq. reflexivity.
  - rewrite List.map_const, length_seq. reflexivity.
Qed.

Lemma out_columns_zero n h k d hd :
  out_columns (repeat 0 n) h k d hd = repeat (repeat 0 k) d.
Proof.
  unfold out_columns.
  transitivity (map (fun _ : nat => repeat 0 k) (seq 0 d)).
  - apply map_ext. intro j.
    transitivity (map (fun _ : nat => 0) (seq 0 k)).
    + apply map_ext. intro r. apply List.nth_repeat.
    + rewrite List.map_const, length_seq. reflexivity.
  - rewrite List.map_const, length_seq. reflexivity.
Qed.

Lemma dense_build_half din dout w :
  fst (dense_build gen_half din dout w) =
  mkDenseW (repeat (repeat 0 din) dout) (repeat 0 dout).
Proof.
  unfold dense_build.
  pose proof (draws_half_zero din dout w (din * dout)) as Hz.
  destruct (draws gen_half w (din * dout)) as [flat w']. cbn [fst] in *.
  rewrite Hz, dense_columns_zero. reflexivity.
Qed.

Lemma mha_build_half h k d w :
  bo (fst (mha_build gen_half h k d w)) = repeat 0 d /\
  Forall (fun H => wo H = repeat (repeat 0 k) d) (heads (fst (mha_build gen_half h k d w))).
Proof.
  unfold mha_build.
  destruct (draws gen_half w (d * h * k)) as [fq w1].
  destruct (draws gen_half w1 (d * h * k)) as [fk w2].
  destruct (draws gen_half w2 (d * h * k)) as [fv w3].
  pose proof (draws_half_zero (k * h) (d * h) w3 (h * k * d)) as Hz.
  destruct (draws gen_half w3 (h * k * d)) as [fo w4]. cbn [fst] in *.
  split; [reflexivity|].
  apply List.Forall_map, List.Forall_forall. intros hd _. cbn [wo].
  rewrite Hz. apply out_columns_zero.
Qed.

Lemma dot_zero_r v k : dot v (repeat 0 k) = 0.
Proof.
  unfold dot. revert k. induction v as [|a v IH]; intros [|k]; cbn; try reflexivity.
  rewrite IH. ring.
Qed.

Lemma linmap_zero k n v : linmap (repeat (repeat 0 k) n) v = repeat 0 n.
Proof. unfold linmap. rewrite List.map_repeat, dot_zero_r. reflexivity. Qed.

Lemma vadd_zero n : vadd (repeat 0 n) (repeat 0 n) = repeat 0 n.
Proof.
  unfold vadd. induction n as [|n IH]; cbn; [reflexivity|].
  rewrite IH, Rplus_0_r. reflexivity.
Qed.

Lemma mha_query_zero kd k W m xq key value n :
  bo W = repeat 0 n -> Forall (fun H => wo H = repeat (repeat 0 k) n) (heads W) ->
  mha_query kd W m xq key value = repeat 0 n.
Proof.
  unfold mha_query. intros Hb Hh. rewrite Hb.
  induction (heads W) as [|H hs IH]; cbn [fold_left]; [reflexivity|].
  inversion Hh as [|? ? HH Hs]; subst.
  rewrite HH, linmap_zero, vadd_zero. apply IH. exact Hs.
Qed.

Lemma dense_vec_zero u a k v :
  dense_vec (mkDense u a (mkDenseW (repeat (repeat 0 k) u) (repeat 0 u))) v = repeat 0 u.
Proof.
  unfold dense_vec, affine. cbn [activation dense_weights kernel bias].
  rewrite linmap_zero, vadd_zero, List.map_repeat.
  destruct a; cbn [activate]; [reflexivity|].
  replace (relu 0) with 0; [reflexivity|]. unfold relu. rewrite Rmax_left; lra.
Qed.

(** The normalisation scale is positive. *)
Lemma variance_nonneg v : 0 <= variance v.
Proof.
  unfold variance, mean.
  assert (Hs : forall l : list R, Forall (fun a => 0 <= a) l -> 0 <= sumR l).
  { induction l as [|a l IH]; intros Hl; cbn; [lra|].
    inversion Hl; subst. pose proof (IH H2). lra. }
  apply Rmult_le_pos.
  - apply Hs. apply List.Forall_forall. intros a Ha.
    apply in_map_iff in Ha as [c [<- _]]. apply pow2_ge_0.
  - destruct (length (map _ v)); [cbn; rewrite Rinv_0; lra|].
    left. apply Rinv_0_lt_compat, lt_0_INR. lia.
Qed.

Lemma ln_scale_pos v : 0 < sqrt (variance v + ln_epsilon).
Proof.
  apply sqrt_lt_R0. pose proof (variance_nonneg v). unfold ln_epsilon. lra.
Qed.

Lemma layer_norm_2 a c :
  layer_norm_vec (ln_build 2) [a; c] =
  [(a - (a + c) / 2) / sqrt (variance [a; c] + ln_epsilon) * 1 + 0;
   (c - (a + c) / 2) / sqrt (variance [a; c] + ln_epsilon) * 1 + 0].
Proof.
  unfold layer_norm_vec. cbv zeta.
  replace (mean [a; c]) with ((a + c) / 2) by (unfold mean; cbn; field).
  reflexivity.
Qed.

Lemma layer_norm_zero2 : layer_norm_vec (ln_build 2) [0; 0] = [0; 0].
Proof. rewrite layer_norm_2. f_equal; [|f_equal]; unfold Rdiv; ring. Qed.

Lemma layer_norm_antisym a :
  layer_norm_vec (ln_build 2) [a; - a] =
  [a / sqrt (variance [a; - a] + ln_epsilon);
   - (a / sqrt (variance [a; - a] + ln_epsilon))].
Proof.
  rewrite layer_norm_2. pose proof (ln_scale_pos [a; - a]).
  f_equal; [|f_equal]; field; lra.
Qed.

Lemma init_attention gen nh d du b w :
  attention (fst (TransformerEncoder_init gen nh d du b w)) = mkMHA nh d None.
Proof.
  unfold TransformerEncoder_init.
  destruct (dense_build gen d du w) as [W1 w1], (dense_build gen du d w1) as [W2 w2].
  reflexivity.
Qed.

Lemma mha_build_world gen h k d w :
  snd (mha_build gen h k d w) =
  mkWorld (rng_seed w) (rng_drawn w + (d * h * k + d * h * k + d * h * k + h * k * d)).
Proof.
  unfold mha_build, draws. cbn [fst snd rng_seed rng_drawn]. f_equal. lia.
Qed.

Lemma init_fresh_ln gen nh d du b w :
  first_layer_norm (fst (TransformerEncoder_init gen nh d du b w)) = mkLN None /\
  second_layer_norm (fst (TransformerEncoder_init gen nh d du b w)) = mkLN None.
Proof.
  unfold TransformerEncoder_init.
  destruct (dense_build gen d du w) as [W1 w1], (dense_build gen du d w1) as [W2 w2].
  split; reflexivity.
Qed.

Lemma t3_shape_input_1x2x4 : t3_shape 1 2 4 (values input_1x2x4).
Proof.
  split; [reflexivity|]. repeat constructor.
Qed.

(* ================================================================== *)
(** * The claims *)

(** C1: after construction, [call] computes [a = attention(x, x, x, mask')],
    [p = first_layer_norm(x + a)], [f = contract(relu(expand(p)))] where
    [expand] is a ReLU [Dense] with [dense_units] units and [contract] a
    linear [Dense] with [embed_dim] units, and returns
    [second_layer_norm(p + f)]; the two normalisations are separate
    sub-layers, each with its own weights. *)
Theorem call_composition (gen : Generator) nh d du b w0 self w1 w x m :
  TransformerEncoder_init gen nh d du b w0 = (self, w1) ->
  exists D1 D2, dense self = [D1; D2] /\
    units D1 = du /\ activation D1 = Relu /\
    units D2 = d /\ activation D2 = Linear /\
    let '(out, self', _) := call gen self w x m in
    exists A L1 L2,
      mha_weights (attention self') = Some A /\
      ln_weights (first_layer_norm self') = Some L1 /\
      ln_weights (second_layer_norm self') = Some L2 /\
      out = spec_block (mha_key_dim (attention self')) A L1 L2
              (dense_weights D1) (dense_weights D2) (values x) m.
Proof.
  unfold TransformerEncoder_init.
  destruct (dense_build gen d du w0) as [W1 w1'].
  destruct (dense_build gen du d w1') as [W2 w2'].
  intros [= <- _].
  exists (mkDense du Relu W1), (mkDense d Linear W2).
  do 5 (split; [reflexivity|]).
  rewrite call_eq. cbv zeta. simpl attention.
  destruct (mha_built gen _ (last_dim x) w) as [W w'].
  simpl. do 3 eexists. do 3 (split; [reflexivity|]).
  unfold block_forward, spec_block, sequential_call. simpl. f_equal. f_equal.
  unfold t3_map. rewrite !map_map. apply map_ext. intros r. rewrite !map_map.
  apply map_ext. intros v. unfold dense_vec. simpl. rewrite map_id. reflexivity.
Qed.

Lemma call_composition_witness :
  TransformerEncoder_init gen_half 2 4 8 base0 world42 =
    (fst (TransformerEncoder_init gen_half 2 4 8 base0 world42),
     snd (TransformerEncoder_init gen_half 2 4 8 base0 world42)) /\
  exists D1 D2, dense (fst (TransformerEncoder_init gen_half 2 4 8 base0 world42)) = [D1; D2] /\
    units D1 = 8%nat /\ activation D1 = Relu /\
    units D2 = 4%nat /\ activation D2 = Linear /\
    let '(out, self', _) :=
      call gen_half (fst (TransformerEncoder_init gen_half 2 4 8 base0 world42))
           world42 input_1x2x4 (Some [[true; false]]) in
    exists A L1 L2,
      mha_weights (attention self') = Some A /\
      ln_weights (first_layer_norm self') = Some L1 /\
      ln_weights (second_layer_norm self') = Some L2 /\
      out = spec_block (mha_key_dim (attention self')) A L1 L2
              (dense_weights D1) (dense_weights D2) (values input_1x2x4)
              (Some [[true; false]]).
Proof.
  split; [apply surjective_pairing|].
  apply (call_composition gen_half 2 4 8 base0 world42 _
           (snd (TransformerEncoder_init gen_half 2 4 8 base0 world42))).
  apply surjective_pairing.
Defined.

(** C2: the constructed block maps an unmasked input of shape [(B, L, d)]
    to an output of shape [(B, L, d)], for every head count, hidden width,
    batch size and length (divisibility of [d] by the head count is not
    needed). *)
Theorem call_output_shape (gen : Generator) nh d du b w0 self w1 w (x : Tensor) B L :
  TransformerEncoder_init gen nh d du b w0 = (self, w1) ->
  shape x = (B, L, d) -> t3_shape B L d (values x) ->
  t3_shape B L d (fst (fst (call gen self w x None))).
Proof.
  intros Hi Hs Hx. pose proof (init_wf gen nh d du b w0) as Hwf. rewrite Hi in Hwf.
  apply (call_shape gen self w x None B L d Hwf); [|exact Hx].
  unfold last_dim. rewrite Hs. reflexivity.
Qed.

Lemma call_output_shape_witness :
  TransformerEncoder_init gen_half 2 4 8 base0 world42 =
    (fst (TransformerEncoder_init gen_half 2 4 8 base0 world42),
     snd (TransformerEncoder_init gen_half 2 4 8 base0 world42)) /\
  shape input_1x2x4 = (1, 2, 4)%nat /\ t3_shape 1 2 4 (values input_1x2x4) /\
  t3_shape 1 2 4
    (fst (fst (call gen_half (fst (TransformerEncoder_init gen_half 2 4 8 base0 world42))
                    world42 input_1x2x4 None))).
Proof.
  split; [apply surjective_pairing|]. split; [reflexivity|].
  split; [apply t3_shape_input_1x2x4|].
  apply (call_output_shape gen_half 2 4 8 base0 world42 _
           (snd (TransformerEncoder_init gen_half 2 4 8 base0 world42))).
  - apply surjective_pairing.
  - reflexivity.
  - apply t3_shape_input_1x2x4.
Defined.

(** C4 (as stated): construction fails whenever the head count does not
    divide [embed_dim].  Refuted: with 3 heads and [embed_dim = 4]
    construction yields an instance, and calling it on a [(1, 2, 4)]
    input returns a [(1, 2, 4)] output. *)
Lemma construction_without_divisibility :
  ~ Nat.divide 3 4 /\
  mha_num_heads (attention (fst (TransformerEncoder_init gen_half 3 4 8 base0 world42))) = 3%nat /\
  t3_shape 1 2 4
    (fst (fst (call gen_half (fst (TransformerEncoder_init gen_half 3 4 8 base0 world42))
                    world42 input_1x2x4 None))).
Proof.
  split; [intros [k Hk]; lia|]. split; [reflexivity|].
  apply (call_shape gen_half _ world42 input_1x2x4 None 1 2 4).
  - apply init_wf.
  - reflexivity.
  - apply t3_shape_input_1x2x4.
Qed.

(** C4 (amended): construction checks nothing about the head count: for
    every head count and [embed_dim] it yields an instance whose attention
    has that head count and [key_dim = embed_dim], and whose calls map any
    input of shape [(B, L, embed_dim)] to an output of the same shape. *)
Theorem init_accepts_any_head_count (gen : Generator) nh d du b w0 w (x : Tensor) m B L :
  shape x = (B, L, d) -> t3_shape B L d (values x) ->
  let self := fst (TransformerEncoder_init gen nh d du b w0) in
  mha_num_heads (attention self) = nh /\ mha_key_dim (attention self) = d /\
  t3_shape B L d (fst (fst (call gen self w x m))).
Proof.
  intros Hs Hx. cbv zeta. split; [|split].
  - unfold TransformerEncoder_init.
    destruct (dense_build gen d du w0), (dense_build gen du d _). reflexivity.
  - unfold TransformerEncoder_init.
    destruct (dense_build gen d du w0), (dense_build gen du d _). reflexivity.
  - apply (call_shape gen _ w x m B L d); [apply init_wf| |exact Hx].
    unfold last_dim. rewrite Hs. reflexivity.
Qed.

Lemma init_accepts_any_head_count_witness :
  shape input_1x2x4 = (1, 2, 4)%nat /\ t3_shape 1 2 4 (values input_1x2x4) /\
  let self := fst (TransformerEncoder_init gen_half 3 4 8 base0 world42) in
  mha_num_heads (attention self) = 3%nat /\ mha_key_dim (attention self) = 4%nat /\
  t3_shape 1 2 4 (fst (fst (call gen_half self world42 input_1x2x4 None))).
Proof.
  split; [reflexivity|]. split; [apply t3_shape_input_1x2x4|].
  apply (init_accepts_any_head_count gen_half 3 4 8 base0 world42 world42
           input_1x2x4 None 1 2); [reflexivity | apply t3_shape_input_1x2x4].
Defined.

(** C7: [get_config] holds the three hyper-parameters under their names
    and every entry of the base layer's config; rebuilding from it
    constructs a fresh instance (new weights drawn from the generator)
    with the same head count, [embed_dim], [dense_units] and base
    attributes. *)
Theorem get_config_roundtrip (gen : Generator) (self : TransformerEncoder) (w : World) :
  get_config self !! "num_heads" = Some (PyInt (Z.of_nat (num_heads self))) /\
  get_config self !! "embed_dim" = Some (PyInt (Z.of_nat (embed_dim self))) /\
  get_config self !! "dense_units" = Some (PyInt (Z.of_nat (dense_units self))) /\
  base_get_config (base self) ⊆ get_config self /\
  from_config gen (get_config self) w
    = Some (TransformerEncoder_init gen (num_heads self) (embed_dim self)
              (dense_units self) (base self) w) /\
  forall self' w', from_config gen (get_config self) w = Some (self', w') ->
    num_heads self' = num_heads self /\ embed_dim self' = embed_dim self /\
    dense_units self' = dense_units self.
Proof.
  destruct self as [[n t d] h e u A D L1 L2 sm]; cbn [num_heads embed_dim dense_units base].
  split; [reflexivity|]. split; [reflexivity|]. split; [reflexivity|].
  assert (Hfc : from_config gen (get_config (mkTE (mkLayerBase n t d) h e u A D L1 L2 sm)) w
                = Some (TransformerEncoder_init gen h e u (mkLayerBase n t d) w)).
  { unfold from_config.
    change (get_config _ !! "num_heads") with (Some (PyInt (Z.of_nat h))).
    change (get_config _ !! "embed_dim") with (Some (PyInt (Z.of_nat e))).
    change (get_config _ !! "dense_units") with (Some (PyInt (Z.of_nat u))).
    rewrite !size_arg_of_nat.
    assert (Hb : layer_init (delete "num_heads" (delete "embed_dim" (delete "dense_units"
              (get_config (mkTE (mkLayerBase n t d) h e u A D L1 L2 sm))))) =
                 Some (mkLayerBase n t d)) by (vm_compute; reflexivity).
    rewrite Hb. reflexivity. }
  split; [|split; [exact Hfc|]].
  - apply map_subseteq_spec. intros k v Hk. unfold base_get_config in Hk.
    rewrite !lookup_insert_Some, lookup_empty in Hk.
    destruct Hk as [[<- <-]|[_ [[<- <-]|[_ [[<- <-]|[_ Hk]]]]]]; [reflexivity..|discriminate].
  - intros self' w'. rewrite Hfc. unfold TransformerEncoder_init.
    destruct (dense_build gen e u w), (dense_build gen u e _).
    intros [= <- _]. auto.
Qed.

(** C9: the attention sub-layer is created with [key_dim = embed_dim];
    once built (first call), it has [num_heads] heads whose query, key and
    value projections each produce [embed_dim] components and whose slice
    of the output projection reads [embed_dim] components. *)
Theorem attention_key_dim_is_embed_dim (gen : Generator) nh d du b w0 w x m :
  let self := fst (TransformerEncoder_init gen nh d du b w0) in
  mha_key_dim (attention self) = d /\
  exists W, mha_weights (attention (snd (fst (call gen self w x m)))) = Some W /\
    length (heads W) = nh /\
    Forall (fun H => length (wq H) = d /\ length (wk H) = d /\ length (wv H) = d /\
                     Forall (fun c => length c = d) (wo H)) (heads W).
Proof.
  cbv zeta. unfold TransformerEncoder_init.
  destruct (dense_build gen d du w0), (dense_build gen du d _).
  split; [reflexivity|].
  rewrite call_eq. cbv zeta. unfold mha_built. cbn [attention mha_weights fst snd].
  unfold mha_build, draws. cbn [fst snd].
  eexists. split; [reflexivity|]. cbn [heads].
  rewrite length_map, length_seq. split; [reflexivity|].
  apply List.Forall_forall. intros H HH. apply in_map_iff in HH as [hd [<- _]]. simpl.
  unfold in_columns, out_columns. rewrite !length_map, !length_seq.
  split; [reflexivity|]. split; [reflexivity|]. split; [reflexivity|].
  apply List.Forall_forall. intros c Hc. apply in_map_iff in Hc as [j [<- _]].
  rewrite length_map, length_seq. reflexivity.
Qed.

(** C10: importing the module reseeds the framework's global generator
    with 42, whatever its state before; hence everything drawn afterwards,
    such as the weights of a block constructed next, is the same whatever
    happened before the import. *)
Theorem import_sets_seed_42 (w w' : World) (gen : Generator) nh d du b n :
  import_encoder_module w = mkWorld 42 0 /\
  draws gen (import_encoder_module w) n = draws gen (import_encoder_module w') n /\
  TransformerEncoder_init gen nh d du b (import_encoder_module w) =
  TransformerEncoder_init gen nh d du b (import_encoder_module w').
Proof. split; [reflexivity|]. split; reflexivity. Qed.

(** C8 (as stated): [call] has no effect on the instance or on any other
    state.  Refuted: the first call of a fresh instance creates the
    attention weights (and draws them from the global generator). *)
Lemma first_call_builds_attention :
  let self := fst (TransformerEncoder_init gen_half 1 4 2 base0 world42) in
  let '(_, self', w') := call gen_half self world42 input_1x2x4 None in
  mha_weights (attention self) = None /\ mha_weights (attention self') <> None /\
  rng_drawn w' <> rng_drawn world42.
Proof.
  cbv zeta. rewrite call_eq. cbv zeta.
  unfold TransformerEncoder_init, dense_build, draws. simpl.
  split; [reflexivity|]. split; [discriminate|]. discriminate.
Qed.

(** C8 (amended): [call] draws from the generator and changes the
    instance only on the first call.  Once the attention and both
    normalisations have weights, every call, on any input and mask,
    returns the block's output with those weights and leaves the instance
    and the generator untouched.  The first call on a constructed instance
    creates these weights: attention weights drawn from the generator (its
    draw counter advances by [4 * d * num_heads * embed_dim] for inputs of
    last dimension [d]) and normalisations with [gamma] ones and [beta]
    zeros; every other attribute is kept. *)
Theorem call_builds_weights_once (gen : Generator) nh e du b w0 w (x : Tensor) m :
  (forall gen' self' w' x' m' W L1 L2,
     mha_weights (attention self') = Some W ->
     ln_weights (first_layer_norm self') = Some L1 ->
     ln_weights (second_layer_norm self') = Some L2 ->
     call gen' self' w' x' m' =
       (block_forward (mha_key_dim (attention self')) W L1 L2 (dense self') (values x') m',
        self', w')) /\
  let self := fst (TransformerEncoder_init gen nh e du b w0) in
  let '(_, self1, w1) := call gen self w x m in
  mha_weights (attention self) = None /\
  mha_weights (attention self1) = Some (fst (mha_build gen nh e (last_dim x) w)) /\
  ln_weights (first_layer_norm self1) = Some (ln_build (last_dim x)) /\
  ln_weights (second_layer_norm self1) = Some (ln_build (last_dim x)) /\
  self1 = with_sublayers self (attention self1) (first_layer_norm self1)
                         (second_layer_norm self1) /\
  rng_seed w1 = rng_seed w /\
  rng_drawn w1 = (rng_drawn w + 4 * (last_dim x * nh * e))%nat.
Proof.
  split.
  - intros gen' self' w' x' m' W L1 L2 HA H1 H2.
    rewrite call_eq. cbv zeta. rewrite (mha_built_some _ _ _ _ _ HA).
    unfold ln_built. rewrite H1, H2. f_equal. f_equal.
    destruct self' as [bs nh' e' du' [h k a] D [l1] [l2] sm]; cbn in *.
    subst. reflexivity.
  - cbv zeta. rewrite call_eq. cbv zeta.
    rewrite init_attention. destruct (init_fresh_ln gen nh e du b w0) as [H1 H2].
    rewrite H1, H2. cbn [mha_built mha_weights mha_num_heads mha_key_dim ln_built ln_weights].
    pose proof (mha_build_world gen nh e (last_dim x) w) as Hw.
    destruct (mha_build gen nh e (last_dim x) w) as [W w1]. cbn [fst snd] in *. subst w1.
    cbn [with_sublayers attention first_layer_norm second_layer_norm mha_weights ln_weights
         rng_seed rng_drawn].
    split; [reflexivity|]. split; [reflexivity|]. split; [reflexivity|].
    split; [reflexivity|]. split; [reflexivity|]. split; [reflexivity|].
    nia.
Qed.

Lemma call_builds_weights_once_witness :
  mha_weights (attention (snd (fst (call gen_half enc_half world42 x_pad1 None))))
    = Some (fst (mha_build gen_half 1 2 2 world42)) /\
  ln_weights (first_layer_norm (snd (fst (call gen_half enc_half world42 x_pad1 None))))
    = Some (ln_build 2) /\
  ln_weights (second_layer_norm (snd (fst (call gen_half enc_half world42 x_pad1 None))))
    = Some (ln_build 2) /\
  call gen_half (snd (fst (call gen_half enc_half world42 x_pad1 None))) world42 x_two0 None =
    (block_forward 2 (fst (mha_build gen_half 1 2 2 world42)) (ln_build 2) (ln_build 2)
       (dense (snd (fst (call gen_half enc_half world42 x_pad1 None)))) (values x_two0) None,
     snd (fst (call gen_half enc_half world42 x_pad1 None)), world42).
Proof.
  assert (HA : mha_weights (attention (snd (fst (call gen_half enc_half world42 x_pad1 None))))
               = Some (fst (mha_build gen_half 1 2 2 world42))) by reflexivity.
  assert (H1 : ln_weights (first_layer_norm (snd (fst (call gen_half enc_half world42 x_pad1 None))))
               = Some (ln_build 2)) by reflexivity.
  assert (H2 : ln_weights (second_layer_norm (snd (fst (call gen_half enc_half world42 x_pad1 None))))
               = Some (ln_build 2)) by reflexivity.
  split; [exact HA|]. split; [exact H1|]. split; [exact H2|].
  exact (proj1 (call_builds_weights_once gen_half 1 2 1 base0 world42 world42 x_pad1 None)
           gen_half _ world42 x_two0 None _ _ _ HA H1 H2).
Defined.

(** C6: on an input of shape [(B, L, d)], a [(B, L)] mask that is all
    true gives exactly what no mask gives: the same output, and the same
    instance and generator state afterwards. *)
Theorem all_true_mask_same_as_none (gen : Generator) self w (x : Tensor) B L d :
  t3_shape B L d (values x) ->
  call gen self w x (Some (repeat (repeat true L) B)) = call gen self w x None.
Proof.
  intros Hx. rewrite !call_eq. cbv zeta.
  destruct (mha_built gen (attention self) (last_dim x) w) as [W w'].
  unfold block_forward. simpl option_map.
  rewrite (mha_apply_all_true _ _ _ B L d Hx). reflexivity.
Qed.

Lemma all_true_mask_same_as_none_witness :
  t3_shape 1 2 4 (values input_1x2x4) /\
  call gen_half (fst (TransformerEncoder_init gen_half 2 4 8 base0 world42)) world42
       input_1x2x4 (Some (repeat (repeat true 2) 1)) =
  call gen_half (fst (TransformerEncoder_init gen_half 2 4 8 base0 world42)) world42
       input_1x2x4 None.
Proof.
  split; [apply t3_shape_input_1x2x4|].
  apply (all_true_mask_same_as_none gen_half _ world42 input_1x2x4 1 2 4).
  apply t3_shape_input_1x2x4.
Defined.



(** C5 (amended): with the same mask, two inputs that differ only at
    masked positions give the same output at every valid (unmasked)
    position. *)
Theorem valid_outputs_ignore_masked_inputs (gen : Generator) self w (x x' : Tensor)
    (m : list (list bool)) b i :
  last_dim x = last_dim x' ->
  length (values x) = length (values x') ->
  (forall b', length (nth b' (values x) []) = length (nth b' (values x') [])) ->
  (forall b' j, nth j (nth b' m []) false = true ->
     at3 (values x) b' j = at3 (values x') b' j) ->
  nth i (nth b m []) false = true ->
  at3 (fst (fst (call gen self w x (Some m)))) b i =
  at3 (fst (fst (call gen self w x' (Some m)))) b i.
Proof.
  intros Hd HB HL Hagree Hvalid. rewrite !call_eq. cbv zeta. rewrite <- Hd.
  destruct (mha_built gen (attention self) (last_dim x) w) as [W w']. simpl fst.
  rewrite !at3_block_forward. rewrite (Hagree b i Hvalid).
  set (X := values x) in *. set (X' := values x') in *.
  simpl option_map.
  destruct (Nat.lt_ge_cases b (length X)) as [Hb|Hb];
    [destruct (Nat.lt_ge_cases i (length (nth b X []))) as [Hi|Hi]|].
  - rewrite !at3_mha_apply by (rewrite <- ?HB, <- ?HL; assumption).
    assert (Hrow : forall j, nth j (nth b m []) false = true ->
                   nth j (nth b X []) [] = nth j (nth b X' []) []).
    { intros j Hj. apply nth_eq_of_nth_error.
      specialize (Hagree b j Hj). unfold at3 in Hagree.
      rewrite (nth_error_nth' X [] Hb), (nth_error_nth' X' []) in Hagree
        by (rewrite <- HB; exact Hb).
      exact Hagree. }
    rewrite (Hrow i Hvalid).
    rewrite (mha_query_masked_ext _ _ _ _ (nth b X []) (nth b X' []));
      [reflexivity | apply (existsb_of_nth _ i Hvalid) | apply HL | exact Hrow].
  - rewrite !at3_mha_apply_none by (right; rewrite <- ?HL; exact Hi).
    destruct (at3 X' b i); reflexivity.
  - rewrite !at3_mha_apply_none by (left; rewrite <- ?HB; exact Hb).
    destruct (at3 X' b i); reflexivity.
Qed.

Lemma valid_outputs_ignore_masked_inputs_witness :
  last_dim x_pad0 = last_dim x_pad1 /\
  length (values x_pad0) = length (values x_pad1) /\
  (forall b', length (nth b' (values x_pad0) []) = length (nth b' (values x_pad1) [])) /\
  (forall b' j, nth j (nth b' [[true; false]] []) false = true ->
     at3 (values x_pad0) b' j = at3 (values x_pad1) b' j) /\
  nth 0 (nth 0 [[true; false]] []) false = true /\
  at3 (fst (fst (call gen_half enc_half world42 x_pad0 (Some [[true; false]])))) 0 0 =
  at3 (fst (fst (call gen_half enc_half world42 x_pad1 (Some [[true; false]])))) 0 0.
Proof.
  assert (H1 : last_dim x_pad0 = last_dim x_pad1) by reflexivity.
  assert (H2 : length (values x_pad0) = length (values x_pad1)) by reflexivity.
  assert (H3 : forall b', length (nth b' (values x_pad0) []) = length (nth b' (values x_pad1) []))
    by (intros [|[|b']]; reflexivity).
  assert (H4 : forall b' j, nth j (nth b' [[true; false]] []) false = true ->
                 at3 (values x_pad0) b' j = at3 (values x_pad1) b' j)
    by (intros [|[|b']] [|[|j]] H; cbn in H; try discriminate; reflexivity).
  assert (H5 : nth 0 (nth 0 [[true; false]] []) false = true) by reflexivity.
  split; [exact H1|]. split; [exact H2|]. split; [exact H3|]. split; [exact H4|].
  split; [exact H5|].
  exact (valid_outputs_ignore_masked_inputs gen_half enc_half world42 x_pad0 x_pad1
           [[true; false]] 0 0 H1 H2 H3 H4 H5).
Defined.

(** C5 (as stated): two calls with the same mask on inputs that differ
    only at masked positions give the same output.  Refuted: with the
    instance whose weights are all zero, mask [[true; false]] and inputs
    differing only at the masked second position, the outputs differ at
    that position, whose residual connection carries its own input. *)
Lemma masked_position_changes_output :
  (forall j, nth j (nth 0 [[true; false]] []) false = true ->
     at3 (values x_pad0) 0 j = at3 (values x_pad1) 0 j) /\
  fst (fst (call gen_half enc_half world42 x_pad0 (Some [[true; false]]))) <>
  fst (fst (call gen_half enc_half world42 x_pad1 (Some [[true; false]]))).
Proof.
  split.
  { intros [|[|j]] Hj; cbn in Hj; try discriminate; reflexivity. }
  intro Heq. apply (f_equal (fun t => at3 t 0 1)) in Heq. revert Heq.
  rewrite !call_eq.
  assert (HA : attention enc_half = mkMHA 1 2 None) by reflexivity.
  assert (HL1 : first_layer_norm enc_half = mkLN None) by reflexivity.
  assert (HL2 : second_layer_norm enc_half = mkLN None) by reflexivity.
  assert (HD : dense enc_half =
    [mkDense 1 Relu (fst (dense_build gen_half 2 1 world42));
     mkDense 2 Linear (fst (dense_build gen_half 1 2 (snd (dense_build gen_half 2 1 world42))))])
    by reflexivity.
  rewrite HA, HL1, HL2, HD, !dense_build_half.
  replace (last_dim x_pad0) with 2%nat by reflexivity.
  replace (last_dim x_pad1) with 2%nat by reflexivity.
  cbv zeta. cbn [mha_built mha_weights mha_num_heads mha_key_dim ln_built ln_weights].
  pose proof (mha_build_half 1 2 2 world42) as [Hbo Hwo].
  destruct (mha_build gen_half 1 2 2 world42) as [W w']. cbn [fst] in *.
  cbn [fst snd]. rewrite !at3_block_forward. cbn [option_map].
  rewrite !at3_mha_apply by (cbn; lia).
  rewrite !(mha_query_zero _ _ _ _ _ _ _ _ Hbo Hwo).
  cbn [at3 values x_pad0 x_pad1 nth_error fold_left].
  rewrite !dense_vec_zero. cbn [repeat]. unfold vadd. cbn [zipWith].
  rewrite !Rplus_0_r, layer_norm_zero2.
  replace [1; -1] with [1; Ropp 1] by (f_equal; f_equal; ring).
  rewrite layer_norm_antisym. cbn [zipWith]. rewrite !Rplus_0_r, layer_norm_zero2.
  set (a := 1 / sqrt (variance [1; Ropp 1] + ln_epsilon)).
  rewrite layer_norm_antisym.
  intro H. injection H as H0 _.
  pose proof (ln_scale_pos [1; Ropp 1]). pose proof (ln_scale_pos [a; - a]).
  assert (Ha : 0 < a) by (unfold a; apply Rdiv_lt_0_compat; lra).
  assert (0 < a / sqrt (variance [a; - a] + ln_epsilon)) by (apply Rdiv_lt_0_compat; lra).
  lra.
Qed.

(* ------------------------------------------------------------------ *)
(** ** Further properties of [call] *)

Lemma at3_row (x : T3) b i :
  (b < length x)%nat -> at3 x b i = nth_error (nth b x []) i.
Proof. intros Hb. unfold at3. rewrite (nth_error_nth' x [] Hb). reflexivity. Qed.

Lemma at3_out_of_batch (x : T3) b i : (length x <= b)%nat -> at3 x b i = None.
Proof. intros Hb. unfold at3. rewrite (proj2 (nth_error_None x b) Hb). reflexivity. Qed.

(** Self-attention at sequence [b] reads only that sequence and its mask row. *)
Lemma at3_mha_apply_row kd W (x : T3) (m : option (list (list bool))) b i :
  (b < length x)%nat ->
  at3 (mha_apply kd W x x x (option_map expand_mask m)) b i =
  option_map (fun xq => mha_query kd W (option_map (fun M => nth b M []) m) xq
                                  (nth b x []) (nth b x []))
             (nth_error (nth b x []) i).
Proof.
  intros Hb. unfold at3, mha_apply. rewrite nth_error_map_seq by exact Hb.
  unfold mha_seq. destruct (Nat.lt_ge_cases i (length (nth b x []))) as [Hi|Hi].
  - rewrite nth_error_map_seq by exact Hi. rewrite (nth_error_nth' _ [] Hi). cbn [option_map].
    f_equal. f_equal. destruct m as [M|]; cbn [option_map]; [|reflexivity].
    rewrite mask_row_expand. reflexivity.
  - rewrite (proj2 (nth_error_None (nth b x []) i) Hi).
    apply nth_error_None. rewrite length_map, length_seq. exact Hi.
Qed.

Lemma at3_call_row (gen : Generator) self w (x : Tensor) m b i :
  (b < length (values x))%nat ->
  at3 (fst (fst (call gen self w x m))) b i =
  let '(W, _) := mha_built gen (attention self) (last_dim x) w in
  let L1 := ln_built (first_layer_norm self) (last_dim x) in
  let L2 := ln_built (second_layer_norm self) (last_dim x) in
  option_map (fun v =>
      let a := mha_query (mha_key_dim (attention self)) W
                 (option_map (fun M => nth b M []) m) v
                 (nth b (values x) []) (nth b (values x) []) in
      let p := layer_norm_vec L1 (vadd v a) in
      layer_norm_vec L2 (vadd p (fold_left (fun v D => dense_vec D v) (dense self) p)))
    (nth_error (nth b (values x) []) i).
Proof.
  intros Hb. rewrite call_eq. cbv zeta.
  destruct (mha_built gen (attention self) (last_dim x) w) as [W w'].
  cbn [fst]. rewrite at3_block_forward, at3_mha_apply_row by exact Hb.
  rewrite at3_row by exact Hb.
  destruct (nth_error (nth b (values x) []) i); reflexivity.
Qed.

Lemma at3_call_out (gen : Generator) self w (x : Tensor) m b i :
  (length (values x) <= b)%nat -> at3 (fst (fst (call gen self w x m))) b i = None.
Proof.
  intros Hb. rewrite call_eq. cbv zeta.
  destruct (mha_built gen (attention self) (last_dim x) w) as [W w'].
  cbn [fst]. rewrite at3_block_forward, at3_out_of_batch by exact Hb. reflexivity.
Qed.

Lemma Forall_at3 (Q : Vec -> Prop) (t : T3) :
  (forall b i y, at3 t b i = Some y -> Q y) -> Forall (Forall Q) t.
Proof.
  intros H. apply List.Forall_forall. intros r Hr. apply In_nth_error in Hr as [b Hb].
  apply List.Forall_forall. intros y Hy. apply In_nth_error in Hy as [i Hi].
  apply (H b i). unfold at3. rewrite Hb. exact Hi.
Qed.

(** Normalisation with the initial [gamma] (ones) and [beta] (zeros). *)
Lemma zipWith_repeat_r {A B C : Type} (f : A -> B -> C) l c n :
  (length l <= n)%nat -> zipWith f l (repeat c n) = map (fun a => f a c) l.
Proof.
  revert n; induction l as [|a l IH]; intros [|n] Hl; simpl in *; try lia; [reflexivity..|].
  rewrite IH by lia. reflexivity.
Qed.

Lemma layer_norm_build n v :
  (length v <= n)%nat ->
  layer_norm_vec (ln_build n) v =
  map (fun a => (a - mean v) / sqrt (variance v + ln_epsilon) * 1 + 0) v.
Proof.
  intros Hv. unfold layer_norm_vec, ln_build. cbv zeta. cbn [gamma beta].
  rewrite (zipWith_repeat_r _ v 1 n Hv).
  rewrite zipWith_repeat_r by (rewrite length_map; exact Hv).
  rewrite map_map. reflexivity.
Qed.

Lemma length_layer_norm_build n v : (length (layer_norm_vec (ln_build n) v) <= n)%nat.
Proof.
  unfold layer_norm_vec, ln_build. cbv zeta. cbn [beta].
  rewrite length_zipWith, repeat_length. lia.
Qed.

Lemma length_vadd_le u v : (length (vadd u v) <= length u)%nat.
Proof. unfold vadd. rewrite length_zipWith. lia. Qed.

Lemma sumR_map_shift (v : Vec) c s :
  sumR (map (fun a => (a - c) / s * 1 + 0) v) = (sumR v - INR (length v) * c) / s.
Proof.
  induction v as [|a v IH]; cbn [map sumR length]; [unfold Rdiv; simpl; ring|].
  rewrite IH, S_INR. unfold Rdiv. ring.
Qed.

Lemma sumR_map_shift_sq (v : Vec) c s :
  sumR (map (fun a => ((a - c) / s * 1 + 0) * ((a - c) / s * 1 + 0)) v) =
  sumR (map (fun a => (a - c) ^ 2) v) * (/ s * / s).
Proof.
  induction v as [|a v IH]; cbn [map sumR]; [ring|].
  rewrite IH. unfold Rdiv. ring.
Qed.

Lemma sumR_nonneg (l : list R) : Forall (fun a => 0 <= a) l -> 0 <= sumR l.
Proof.
  induction 1 as [|a l Ha _ IH]; cbn [sumR]; lra.
Qed.

(** A vector normalised with the initial weights has mean zero and
    squared norm at most its length. *)
Lemma layer_norm_build_props n v :
  (length v <= n)%nat ->
  sumR (layer_norm_vec (ln_build n) v) = 0 /\
  sumR (map (fun a => a * a) (layer_norm_vec (ln_build n) v))
    <= INR (length (layer_norm_vec (ln_build n) v)) /\
  (length (layer_norm_vec (ln_build n) v) <= n)%nat.
Proof.
  intros Hv. split; [|split; [|apply length_layer_norm_build]];
    rewrite layer_norm_build by exact Hv.
  - rewrite sumR_map_shift. unfold mean.
    destruct (length v) as [|k] eqn:Ev.
    + destruct v; [|discriminate]. cbn. unfold Rdiv. ring.
    + assert (Hk : INR (S k) <> 0) by (apply not_0_INR; lia).
      replace (INR (S k) * (sumR v / INR (S k))) with (sumR v) by (field; exact Hk).
      unfold Rdiv. ring.
  - rewrite map_map, sumR_map_shift_sq, length_map.
    set (Q := sumR (map (fun a => (a - mean v) ^ 2) v)).
    assert (HQ : 0 <= Q).
    { apply sumR_nonneg, List.Forall_forall. intros a Ha.
      apply in_map_iff in Ha as [c [<- _]]. apply pow2_ge_0. }
    assert (Hvar : variance v = Q / INR (length v))
      by (unfold variance, mean at 1; rewrite length_map; reflexivity).
    pose proof (variance_nonneg v) as Hvn. pose proof (ln_scale_pos v) as Hs.
    set (s := sqrt (variance v + ln_epsilon)) in *.
    assert (Hss : s * s = variance v + ln_epsilon)
      by (unfold s; apply sqrt_sqrt; unfold ln_epsilon; lra).
    assert (He : 0 < ln_epsilon) by (unfold ln_epsilon; lra).
    rewrite <- Rinv_mult, Hss.
    destruct (length v) as [|k] eqn:Ev.
    + destruct v; [|discriminate]. unfold Q. cbn. lra.
    + assert (Hk : 0 < INR (S k)) by (apply lt_0_INR; lia).
      apply (Rmult_le_reg_r (variance v + ln_epsilon)); [lra|].
      rewrite Rmult_assoc, Rinv_l by lra. rewrite Rmult_1_r, Hvar.
      replace (INR (S k) * (Q / INR (S k) + ln_epsilon)) with (Q + INR (S k) * ln_epsilon)
        by (field; lra).
      assert (0 <= INR (S k) * ln_epsilon) by (apply Rmult_le_pos; lra). lra.
Qed.

(** The sequences of a batch are processed independently: the output of
    sequence [b] depends only on sequence [b] of the input and row [b] of
    the mask, whatever the other sequences and mask rows hold. *)
Theorem call_batch_independent (gen : Generator) self w (x x' : Tensor)
    (m m' : option (list (list bool))) b i :
  last_dim x = last_dim x' ->
  nth b (values x) [] = nth b (values x') [] ->
  option_map (fun M => nth b M []) m = option_map (fun M => nth b M []) m' ->
  at3 (fst (fst (call gen self w x m))) b i = at3 (fst (fst (call gen self w x' m'))) b i.
Proof.
  intros Hd Hx Hm.
  assert (Hrow : forall (t : Tensor) mt,
    at3 (fst (fst (call gen self w t mt))) b i =
    if Nat.ltb b (length (values t)) then
      let '(W, _) := mha_built gen (attention self) (last_dim t) w in
      let L1 := ln_built (first_layer_norm self) (last_dim t) in
      let L2 := ln_built (second_layer_norm self) (last_dim t) in
      option_map (fun v =>
        let a := mha_query (mha_key_dim (attention self)) W
                   (option_map (fun M => nth b M []) mt) v
                   (nth b (values t) []) (nth b (values t) []) in
        let p := layer_norm_vec L1 (vadd v a) in
        layer_norm_vec L2 (vadd p (fold_left (fun v D => dense_vec D v) (dense self) p)))
      (nth_error (nth b (values t) []) i)
    else None).
  { intros t mt. destruct (Nat.ltb_spec b (length (values t))) as [Hb|Hb].
    - apply at3_call_row. exact Hb.
    - apply at3_call_out. exact Hb. }
  rewrite !Hrow, <- Hd, <- Hx, <- Hm.
  destruct (Nat.ltb_spec b (length (values x))) as [Hb|Hb];
    destruct (Nat.ltb_spec b (length (values x'))) as [Hb'|Hb']; try reflexivity.
  - rewrite (nth_overflow (values x') [] Hb') in Hx. rewrite Hx.
    destruct (mha_built gen (attention self) (last_dim x) w).
    destruct i; reflexivity.
  - rewrite (nth_overflow (values x) [] Hb).
    destruct (mha_built gen (attention self) (last_dim x) w).
    destruct i; reflexivity.
Qed.

Lemma call_batch_independent_witness :
  last_dim x_two0 = last_dim x_two1 /\
  nth 0 (values x_two0) [] = nth 0 (values x_two1) [] /\
  option_map (fun M => nth 0 M []) (Some [[true]; [true]]) =
    option_map (fun M => nth 0 M []) (Some [[true]; [false]]) /\
  at3 (fst (fst (call gen_half enc_half world42 x_two0 (Some [[true]; [true]])))) 0 0 =
  at3 (fst (fst (call gen_half enc_half world42 x_two1 (Some [[true]; [false]])))) 0 0.
Proof.
  split; [reflexivity|]. split; [reflexivity|]. split; [reflexivity|].
  apply call_batch_independent; reflexivity.
Defined.

(** An instance that has not been called yet normalises with the initial
    weights of its second [LayerNormalization] ([gamma] ones, [beta]
    zeros): every output vector of its call has components summing to
    zero, squared norm at most its length, and at most [last_dim] components. *)
Theorem fresh_call_outputs_normalised (gen : Generator) nh d du b0 w0 w (x : Tensor) m :
  Forall (Forall (fun y => sumR y = 0 /\
                           sumR (map (fun a => a * a) y) <= INR (length y) /\
                           (length y <= last_dim x)%nat))
    (fst (fst (call gen (fst (TransformerEncoder_init gen nh d du b0 w0)) w x m))).
Proof.
  apply Forall_at3. intros b i y Hy.
  destruct (Nat.lt_ge_cases b (length (values x))) as [Hb|Hb];
    [|rewrite at3_call_out in Hy by exact Hb; discriminate].
  rewrite at3_call_row in Hy by exact Hb.
  destruct (init_fresh_ln gen nh d du b0 w0) as [H1 H2]. rewrite H1, H2 in Hy.
  cbn [ln_built ln_weights] in Hy.
  destruct (mha_built _ _ _ _) as [W w'].
  destruct (nth_error (nth b (values x) []) i) as [v|]; [|discriminate].
  cbn [option_map] in Hy. injection Hy as <-. cbv zeta.
  apply layer_norm_build_props.
  eapply Nat.le_trans; [apply length_vadd_le|apply length_layer_norm_build].
Qed.

(** Reordering positions. *)
Lemma perm_index_lt (p : list nat) L j : Permutation p (seq 0 L) -> In j p -> (j < L)%nat.
Proof. intros Hp Hj. apply (Permutation_in j Hp), in_seq in Hj. lia. Qed.

Lemma map_permute {A B : Type} (f : A -> B) p d d' (l : list A) :
  (forall j, In j p -> (j < length l)%nat) ->
  map f (permute p d l) = permute p d' (map f l).
Proof.
  intros Hp. unfold permute. rewrite map_map. apply map_ext_in. intros j Hj.
  symmetry. apply nth_map_lt, Hp, Hj.
Qed.

Lemma zipWith_permute {A B C : Type} (f : A -> B -> C) p da db dc (a : list A) (b : list B) :
  (forall j, In j p -> (j < length a)%nat /\ (j < length b)%nat) ->
  zipWith f (permute p da a) (permute p db b) = permute p dc (zipWith f a b).
Proof.
  unfold permute. induction p as [|j p IH]; intros Hp; cbn [map zipWith]; [reflexivity|].
  f_equal.
  - symmetry. apply nth_zipWith. rewrite length_zipWith.
    destruct (Hp j (or_introl eq_refl)). lia.
  - apply IH. intros k Hk. apply Hp. right. exact Hk.
Qed.

Lemma map_nth_seq {A : Type} (l : list A) d :
  map (fun j => nth j l d) (seq 0 (length l)) = l.
Proof.
  induction l as [|a l IH]; [reflexivity|]. cbn [length seq map nth].
  f_equal. rewrite <- seq_shift, map_map. exact IH.
Qed.

Lemma Permutation_permute {A : Type} p d (l : list A) :
  Permutation p (seq 0 (length l)) -> Permutation (permute p d l) l.
Proof.
  intros Hp. unfold permute.
  transitivity (map (fun j => nth j l d) (seq 0 (length l))).
  - apply Permutation_map. exact Hp.
  - rewrite map_nth_seq. reflexivity.
Qed.

Lemma sumR_Permutation l l' : Permutation l l' -> sumR l = sumR l'.
Proof. induction 1; cbn [sumR]; lra. Qed.

Lemma existsb_Permutation {A : Type} (f : A -> bool) l l' :
  Permutation l l' -> existsb f l = existsb f l'.
Proof.
  induction 1; cbn [existsb]; try congruence.
  destruct (f x), (f y); reflexivity.
Qed.

Lemma vadd_comm u v : vadd u v = vadd v u.
Proof.
  unfold vadd. revert v; induction u as [|a u IH]; intros [|b v]; cbn; [reflexivity..|].
  rewrite IH, Rplus_comm. reflexivity.
Qed.

Lemma vadd_assoc u v t : vadd u (vadd v t) = vadd (vadd u v) t.
Proof.
  unfold vadd. revert v t; induction u as [|a u IH]; intros [|b v] [|c t]; cbn; try reflexivity.
  rewrite IH, Rplus_assoc. reflexivity.
Qed.

Lemma fold_vadd_Permutation z l l' :
  Permutation l l' -> fold_right vadd z l = fold_right vadd z l'.
Proof.
  induction 1; cbn [fold_right]; try congruence.
  rewrite !vadd_assoc, (vadd_comm y x). reflexivity.
Qed.

Lemma wsum_fold n w vs : wsum n w vs = fold_right vadd (repeat 0 n) (zipWith vscale w vs).
Proof.
  revert vs; induction w as [|a w IH]; intros [|v vs]; cbn; try reflexivity.
  rewrite IH. reflexivity.
Qed.

Lemma length_masked_softmax m s :
  (forall row, m = Some row -> length row = length s) ->
  length (masked_softmax m s) = length s.
Proof.
  intros Hm. unfold masked_softmax, softmax. destruct m as [row|].
  - destruct (existsb (fun b => b) row); cbv zeta; rewrite ?length_map; [|reflexivity].
    rewrite length_zipWith, (Hm row eq_refl). lia.
  - cbv zeta. rewrite !length_map. reflexivity.
Qed.

Lemma masked_softmax_permute p L m s :
  Permutation p (seq 0 L) -> length s = L ->
  (forall row, m = Some row -> length row = L) ->
  masked_softmax (option_map (permute p false) m) (permute p 0 s) =
  permute p 0 (masked_softmax m s).
Proof.
  intros Hp Hs Hm.
  assert (Hlt : forall j, In j p -> (j < L)%nat) by (intros j; apply perm_index_lt; exact Hp).
  assert (Hsm : softmax (permute p 0 s) = permute p 0 (softmax s)).
  { unfold softmax. cbv zeta.
    rewrite (map_permute exp p 0 0) by (intros j Hj; rewrite Hs; auto).
    rewrite (sumR_Permutation (permute p 0 (map exp s)) (map exp s))
      by (apply Permutation_permute; rewrite length_map, Hs; exact Hp).
    apply map_permute. intros j Hj. rewrite length_map, Hs. auto. }
  destruct m as [row|]; cbn [option_map masked_softmax]; [|exact Hsm].
  pose proof (Hm row eq_refl) as Hr.
  rewrite (existsb_Permutation _ (permute p false row) row)
    by (apply Permutation_permute; rewrite Hr; exact Hp).
  destruct (existsb (fun b => b) row);
    [|apply map_permute; intros j Hj; rewrite Hs; auto].
  cbv zeta.
  rewrite (zipWith_permute _ p false 0 0) by (intros j Hj; rewrite Hr, Hs; auto).
  set (e := zipWith (fun (b : bool) (a : R) => if b then exp a else 0) row s).
  assert (He : length e = L) by (unfold e; rewrite length_zipWith, Hr, Hs; lia).
  rewrite (sumR_Permutation (permute p 0 e) e)
    by (apply Permutation_permute; rewrite He; exact Hp).
  apply map_permute. intros j Hj. rewrite He. auto.
Qed.

(** Attention of a query over reordered keys and values, with the mask
    row reordered alike, is unchanged. *)
Lemma head_attend_permute kd H p L m xq (r : Mat) :
  Permutation p (seq 0 L) -> length r = L ->
  (forall row, m = Some row -> length row = L) ->
  head_attend kd H (option_map (permute p false) m) xq (permute p [] r) (permute p [] r) =
  head_attend kd H m xq r r.
Proof.
  intros Hp Hr Hm.
  assert (Hlt : forall j, In j p -> (j < L)%nat) by (intros j; apply perm_index_lt; exact Hp).
  unfold head_attend, head_weights.
  assert (Hsc : head_scores kd H xq (permute p [] r) = permute p 0 (head_scores kd H xq r)).
  { unfold head_scores. cbv zeta. rewrite map_map.
    rewrite (map_permute _ p [] 0) by (intros j Hj; rewrite Hr; auto).
    rewrite map_map. reflexivity. }
  rewrite Hsc, (masked_softmax_permute p L) by (rewrite ?length_head_scores; assumption).
  rewrite (map_permute _ p [] []) by (intros j Hj; rewrite Hr; auto).
  rewrite !wsum_fold.
  assert (Hw : length (masked_softmax m (head_scores kd H xq r)) = L).
  { rewrite length_masked_softmax; rewrite length_head_scores; [exact Hr|].
    intros row E. rewrite (Hm row E). symmetry. exact Hr. }
  rewrite (zipWith_permute _ p 0 [] []).
  - apply fold_vadd_Permutation, Permutation_permute.
    rewrite length_zipWith, Hw, length_map, Hr, Nat.min_id. exact Hp.
  - intros j Hj. rewrite Hw, length_map, Hr. auto.
Qed.

Lemma mha_query_permute kd W p L m xq (r : Mat) :
  Permutation p (seq 0 L) -> length r = L ->
  (forall row, m = Some row -> length row = L) ->
  mha_query kd W (option_map (permute p false) m) xq (permute p [] r) (permute p [] r) =
  mha_query kd W m xq r r.
Proof.
  intros Hp Hr Hm. apply mha_query_ext. intros H.
  apply (head_attend_permute kd H p L); assumption.
Qed.

(** The block has no notion of position order: reordering the positions
    of the sequences by a permutation [p] of [0 .. L-1], with the mask
    rows reordered alike, reorders the outputs in the same way. *)
Theorem call_permutation_equivariant (gen : Generator) self w (x x' : Tensor)
    (m : option (list (list bool))) p L b i :
  Permutation p (seq 0 L) ->
  length (nth b (values x) []) = L ->
  (forall M, m = Some M -> length (nth b M []) = L) ->
  last_dim x' = last_dim x ->
  values x' = map (permute p []) (values x) ->
  (i < L)%nat ->
  at3 (fst (fst (call gen self w x' (option_map (map (permute p false)) m)))) b i =
  at3 (fst (fst (call gen self w x m))) b (nth i p 0%nat).
Proof.
  intros Hp HL Hm Hd Hx Hi.
  assert (Hb : (b < length (values x))%nat).
  { destruct (Nat.lt_ge_cases b (length (values x))) as [Hb|Hb]; [exact Hb|].
    rewrite (nth_overflow _ _ Hb) in HL. cbn in HL. lia. }
  assert (Hb' : (b < length (values x'))%nat) by (rewrite Hx, length_map; exact Hb).
  rewrite !at3_call_row by assumption. rewrite Hd.
  assert (Hrow : nth b (values x') [] = permute p [] (nth b (values x) []))
    by (rewrite Hx; apply (nth_map_lt _ _ _ [] []); exact Hb).
  assert (Hmask : option_map (fun M => nth b M []) (option_map (map (permute p false)) m) =
                  option_map (permute p false) (option_map (fun M => nth b M []) m)).
  { destruct m as [M|]; [|reflexivity]. cbn [option_map]. f_equal.
    pose proof (Hm M eq_refl) as HM.
    destruct (Nat.lt_ge_cases b (length M)) as [HbM|HbM].
    - apply (nth_map_lt _ _ _ [] []). exact HbM.
    - rewrite (nth_overflow _ _ HbM) in HM. cbn in HM. lia. }
  rewrite Hrow, Hmask.
  set (r := nth b (values x) []) in *.
  assert (Hpl : length p = L) by (rewrite (Permutation_length Hp), length_seq; reflexivity).
  assert (Hj : (nth i p 0%nat < L)%nat) by (apply (perm_index_lt p L); [exact Hp|apply nth_In; lia]).
  rewrite (nth_error_nth' (permute p [] r) []) by (unfold permute; rewrite length_map; lia).
  rewrite (nth_error_nth' r []) by lia.
  replace (nth i (permute p [] r) []) with (nth (nth i p 0%nat) r [])
    by (unfold permute; symmetry; apply (nth_map_lt (fun j => nth j r []) p i 0%nat []); lia).
  destruct (mha_built gen (attention self) (last_dim x) w) as [W w'].
  cbn [option_map]. cbv zeta.
  rewrite (mha_query_permute _ W p L); [reflexivity|exact Hp|exact HL|].
  intros row E. destruct m as [M|]; cbn in E; [|discriminate].
  injection E as <-. apply Hm. reflexivity.
Qed.

Lemma call_permutation_equivariant_witness :
  Permutation [1; 0]%nat (seq 0 2) /\
  length (nth 0 (values x_pad1) []) = 2%nat /\
  (forall M, Some [[true; false]] = Some M -> length (nth 0 M []) = 2%nat) /\
  last_dim x_swap = last_dim x_pad1 /\
  values x_swap = map (permute [1; 0]%nat []) (values x_pad1) /\
  (0 < 2)%nat /\
  at3 (fst (fst (call gen_half enc_half world42 x_swap
                  (option_map (map (permute [1; 0]%nat false)) (Some [[true; false]]))))) 0 0 =
  at3 (fst (fst (call gen_half enc_half world42 x_pad1 (Some [[true; false]])))) 0
      (nth 0 [1; 0] 0)%nat.
Proof.
  assert (Hp : Permutation [1; 0]%nat (seq 0 2)) by (cbn; apply perm_swap).
  assert (HM : forall M, Some [[true; false]] = Some M -> length (nth 0 M []) = 2%nat)
    by (intros M E; injection E as <-; reflexivity).
  split; [exact Hp|]. split; [reflexivity|]. split; [exact HM|].
  split; [reflexivity|]. split; [reflexivity|]. split; [lia|].
  apply (call_permutation_equivariant gen_half enc_half world42 x_pad1 x_swap
           (Some [[true; false]]) [1; 0]%nat 2 0 0 Hp eq_refl HM eq_refl eq_refl).
  lia.
Defined.
